(** * Tuya BLE devices module: coordinator, product database, addresses

    A shallow embedding of [custom_components/tuya_ble/devices.py]:
    the BLE address helpers, the static product database with its lookup,
    and the connection coordinator [TuyaBLECoordinator] together with the
    part of the host event loop it talks to (delayed calls, listener
    broadcasts, the event bus). *)

From Stdlib Require Import ZArith Ascii String List Lia Bool.
From stdpp Require Import base option list gmap strings pretty.

Import ListNotations.
Local Open Scope string_scope.

(** ** Python [str] helpers

    Addresses are modelled as strings of 8-bit characters; [str.upper]
    is the ASCII upper-casing, which is what it does on every character
    of a textual BLE address. *)
Module Str.

(** [c.upper()] on one character. *)
Definition upper_char (c : ascii) : ascii :=
  let n := nat_of_ascii c in
  if (97 <=? n)%nat && (n <=? 122)%nat then ascii_of_nat (n - 32) else c.

(** [s.upper()]. *)
Fixpoint upper (s : string) : string :=
  match s with
  | EmptyString => EmptyString
  | String c s' => String (upper_char c) (upper s')
  end.

(** [s.replace(old, new)] for one-character [old] and [new]. *)
Fixpoint replace (old new : ascii) (s : string) : string :=
  match s with
  | EmptyString => EmptyString
  | String c s' =>
      String (if Ascii.eqb c old then new else c) (replace old new s')
  end.

(** [s.split(sep)] for a one-character separator: the result is never
    empty, and an empty string splits into one empty group. *)
Fixpoint split (sep : ascii) (s : string) : list string :=
  match s with
  | EmptyString => [EmptyString]
  | String c s' =>
      if Ascii.eqb c sep then EmptyString :: split sep s'
      else match split sep s' with
           | [] => [String c EmptyString]
           | p :: ps => String c p :: ps
           end
  end.

(** [sep.join(parts)]. *)
Fixpoint join (sep : string) (parts : list string) : string :=
  match parts with
  | [] => EmptyString
  | [p] => p
  | p :: ps => p ++ sep ++ join sep ps
  end.

(** [xs[-n:]] for [n > 0]: the last [n] elements, or the whole list when
    it is shorter. *)
Definition last_n {A} (n : nat) (xs : list A) : list A :=
  skipn (length xs - n) xs.

End Str.

(** [get_full_address]: dashes become colons, then upper case. *)
Definition get_full_address (address : string) : string :=
  Str.upper (Str.replace "-" ":" address).

(** [get_short_address]: the last three colon-separated groups. *)
Definition get_short_address (address : string) : string :=
  let full := get_full_address address in
  let parts := Str.split ":" full in
  Str.join ":" (Str.last_n 3 parts).

(** ** Constants of [const.py]

    The module imports [DEVICE_DEF_MANUFACTURER], [FINGERBOT_BUTTON_EVENT]
    and [SET_DISCONNECTED_DELAY] from [.const]; their values are
    parameters of the development.  The delay is a duration in ticks of
    the event-loop clock. *)
Class Consts := {
  DEVICE_DEF_MANUFACTURER : string;
  FINGERBOT_BUTTON_EVENT : string;
  SET_DISCONNECTED_DELAY : nat;
}.

(** ** Product metadata (the dataclasses) *)

(** [TuyaBLEFingerbotInfo]: data-point ids of a Fingerbot.  The Python
    defaults are [manual_control = 0] and [program = 0]. *)
Record TuyaBLEFingerbotInfo := {
  switch : Z;
  mode : Z;
  up_position : Z;
  down_position : Z;
  hold_time : Z;
  reverse_positions : Z;
  manual_control : Z;
  program : Z;
}.

(** [TuyaBLEProductInfo]. *)
Record TuyaBLEProductInfo := {
  name : string;
  manufacturer : string;
  fingerbot : option TuyaBLEFingerbotInfo;
}.

(** [TuyaBLECategoryInfo]: the products of one category, keyed by
    product id, and an optional category-level default. *)
Record TuyaBLECategoryInfo := {
  products : gmap string TuyaBLEProductInfo;
  info : option TuyaBLEProductInfo;
}.

(** A Python dict display [{k1: v1, ...}]: items are inserted left to
    right, a later key overriding an earlier one. *)
Definition dict_of {V} (items : list (string * V)) : gmap string V :=
  foldl (fun m kv => <[kv.1 := kv.2]> m) ∅ items.

(** [dict.fromkeys(keys, value)], as the items it contributes to the
    enclosing display through [**]. *)
Definition dict_fromkeys {V} (keys : list string) (value : V)
  : list (string * V) :=
  map (fun k => (k, value)) keys.

Section Database.
Context `{Consts}.

(** [TuyaBLEProductInfo(name=...)] with the default manufacturer. *)
Definition product (n : string) (fb : option TuyaBLEFingerbotInfo)
  : TuyaBLEProductInfo :=
  {| name := n; manufacturer := DEVICE_DEF_MANUFACTURER; fingerbot := fb |}.

(** [TuyaBLECategoryInfo(products=...)]: [info] defaults to [None]. *)
Definition category_of (items : list (string * TuyaBLEProductInfo))
  : TuyaBLECategoryInfo :=
  {| products := dict_of items; info := None |}.

Definition cubetouch_dps : TuyaBLEFingerbotInfo :=
  {| switch := 1; mode := 2; up_position := 5; down_position := 6;
     hold_time := 3; reverse_positions := 4;
     manual_control := 0; program := 0 |}.

Definition fingerbot_plus_dps : TuyaBLEFingerbotInfo :=
  {| switch := 2; mode := 8; up_position := 15; down_position := 9;
     hold_time := 10; reverse_positions := 11;
     manual_control := 17; program := 121 |}.

Definition fingerbot_dps : TuyaBLEFingerbotInfo :=
  {| switch := 2; mode := 8; up_position := 15; down_position := 9;
     hold_time := 10; reverse_positions := 11;
     manual_control := 0; program := 121 |}.

(** [devices_database], category by category as in the source. *)
Definition devices_database_items
  : list (string * TuyaBLECategoryInfo) :=
  [ ("co2bj", category_of [("59s19z5m", product "CO2 Detector" None)]);
    ("ms", category_of
       (dict_fromkeys ["ludzroix"; "isk2p555"; "isljqiq1"]
          (product "Smart Lock" None)));
    ("szjqr", category_of
       ([("3yqdo5yt", product "CUBETOUCH 1s" (Some cubetouch_dps));
         ("xhf790if", product "CubeTouch II" (Some cubetouch_dps))]
        ++ dict_fromkeys ["blliqpsj"; "ndvkgsrm"; "yiihr7zh"; "neq16kgd"]
             (product "Fingerbot Plus" (Some fingerbot_plus_dps))
        ++ dict_fromkeys
             ["ltak7e1p"; "y6kttvd6"; "yrnk7mnn"; "nvr2rocq"; "bnt7wajf";
              "rvdceqjh"; "5xhbk964"]
             (product "Fingerbot" (Some fingerbot_dps))));
    ("wk", category_of
       (dict_fromkeys ["drlajpqc"; "nhj2j7su"]
          (product "Thermostatic Radiator Valve" None)));
    ("wsdcg", category_of
       [("ojzlzzsw", product "Soil moisture sensor" None)]);
    ("znhsb", category_of
       [("cdlandip", product "Smart water bottle" None)]);
    ("ggq", category_of
       [("6pahkcau", product "Irrigation computer" None)]) ].

Definition devices_database : gmap string TuyaBLECategoryInfo :=
  dict_of devices_database_items.

(** The body of [get_product_info_by_ids], over any database.  A
    dataclass instance is always truthy, so [not category_info] holds
    exactly when [dict.get] returned [None]. *)
Definition product_info_in (db : gmap string TuyaBLECategoryInfo)
    (category product_id : string) : option TuyaBLEProductInfo :=
  match db !! category with
  | None => None
  | Some category_info =>
      match products category_info !! product_id with
      | Some product_info => Some product_info
      | None => info category_info
      end
  end.

(** [get_product_info_by_ids]. *)
Definition get_product_info_by_ids (category product_id : string)
  : option TuyaBLEProductInfo :=
  product_info_in devices_database category product_id.

End Database.

(** Sample constants, used where a statement is evaluated on a concrete
    input. *)
Definition sample_consts : Consts :=
  {| DEVICE_DEF_MANUFACTURER := "Tuya";
     FINGERBOT_BUTTON_EVENT := "fingerbot_button_pressed";
     SET_DISCONNECTED_DELAY := 600 |}.

Local Open Scope nat_scope.

(** ** Transport types (module [.tuya_ble])

    Only the attributes this module reads are kept. *)
Inductive DPValue :=
  | DPBool (b : bool)
  | DPInt (z : Z)
  | DPStr (s : string).

(** [TuyaBLEDataPoint]: one record of a data update. *)
Record TuyaBLEDataPoint := {
  dp_id : Z;
  dp_value : DPValue;
  changed_by_device : bool;
}.

(** [TuyaBLEDevice]. *)
Record TuyaBLEDevice := {
  address : string;
  device_id : string;
  category : string;
  product_id : string;
}.

(** [get_device_product_info]. *)
Definition get_device_product_info `{Consts} (device : TuyaBLEDevice)
  : option TuyaBLEProductInfo :=
  get_product_info_by_ids (category device) (product_id device).

(** ** The host: event loop, listeners, event bus *)

(** A delayed call is identified by a handle; the [CALLBACK_TYPE] that
    [async_call_later] returns is the closure cancelling that handle. *)
Definition Handle := nat.

(** What a delayed call runs: the only callback this module schedules is
    the bound method [self._set_disconnected]. *)
Inductive Action := SetDisconnected.

Record Timer := {
  handle : Handle;
  due : nat;
  action : Action;
}.

(** Calls that leave the coordinator, in the order they are made. *)
Inductive Effect :=
  | UpdateListeners                 (* self.async_update_listeners() *)
  | SetUpdatedData                  (* self.async_set_updated_data(None) *)
  | BusFire (event_type addr dev_id : string)   (* self.hass.bus.fire *)
  | CallLater (h : Handle) (delay : nat)        (* async_call_later *)
  | Cancel (h : Handle)             (* calling a stored unsubscribe *)
  | Fired (h : Handle).             (* the loop runs a delayed call *)

#[global] Instance Effect_eq_dec : EqDecision Effect.
Proof. solve_decision. Defined.

(** [HomeAssistant], as far as the coordinator sees it: the loop clock,
    the delayed calls still pending, and the log of effects. *)
Record HomeAssistant := {
  now : nat;
  timers : list Timer;
  next_handle : Handle;
  effects : list Effect;
}.

(** The fields [TuyaBLECoordinator.__init__] sets. *)
Record TuyaBLECoordinator := {
  _device : TuyaBLEDevice;
  _disconnected : bool;
  _unsub_disconnect : option Handle;
}.

Record World := {
  self : TuyaBLECoordinator;
  hass : HomeAssistant;
}.

(** *** A state monad over the world *)
Definition M (A : Type) : Type := World -> A * World.

#[global] Instance M_ret : MRet M := fun A a w => (a, w).
#[global] Instance M_bind : MBind M :=
  fun A B f m w => let '(a, w') := m w in f a w'.

Definition exec {A} (m : M A) (w : World) : World := (m w).2.

Definition get_self : M TuyaBLECoordinator := fun w => (self w, w).
Definition get_hass : M HomeAssistant := fun w => (hass w, w).
Definition put_self (c : TuyaBLECoordinator) : M unit :=
  fun w => (tt, {| self := c; hass := hass w |}).
Definition put_hass (h : HomeAssistant) : M unit :=
  fun w => (tt, {| self := self w; hass := h |}).

(** [self._disconnected = b]. *)
Definition assign_disconnected (b : bool) : M unit :=
  c ← get_self;
  put_self {| _device := _device c; _disconnected := b;
              _unsub_disconnect := _unsub_disconnect c |}.

(** [self._unsub_disconnect = u]. *)
Definition assign_unsub_disconnect (u : option Handle) : M unit :=
  c ← get_self;
  put_self {| _device := _device c; _disconnected := _disconnected c;
              _unsub_disconnect := u |}.

Definition emit (e : Effect) : M unit :=
  h ← get_hass;
  put_hass {| now := now h; timers := timers h;
              next_handle := next_handle h; effects := effects h ++ [e] |}.

Definition set_timers (ts : list Timer) : M unit :=
  h ← get_hass;
  put_hass {| now := now h; timers := ts;
              next_handle := next_handle h; effects := effects h |}.

Definition set_now (t : nat) : M unit :=
  h ← get_hass;
  put_hass {| now := t; timers := timers h;
              next_handle := next_handle h; effects := effects h |}.

(** [self.async_update_listeners()]: one broadcast to the observers. *)
Definition async_update_listeners : M unit := emit UpdateListeners.

(** [self.async_set_updated_data(None)], a method of the host's
    [DataUpdateCoordinator]. *)
Definition async_set_updated_data : M unit := emit SetUpdatedData.

(** [self.hass.bus.fire(event_type, {address, device_id})]. *)
Definition bus_fire (event_type addr dev_id : string) : M unit :=
  emit (BusFire event_type addr dev_id).

(** [async_call_later(hass, delay, action)]: a one-shot call at
    [now + delay], under a fresh handle. *)
Definition async_call_later (delay : nat) (a : Action) : M Handle :=
  h ← get_hass;
  let k := next_handle h in
  put_hass {| now := now h;
              timers := timers h ++ [{| handle := k; due := now h + delay;
                                        action := a |}];
              next_handle := S k;
              effects := effects h ++ [CallLater k delay] |} ;;
  mret k.

(** Calling the unsubscribe closure of handle [k]: the call is dropped
    from the pending ones; on a call that already ran or was already
    cancelled nothing changes. *)
Definition call_unsub (k : Handle) : M unit :=
  h ← get_hass;
  put_hass {| now := now h;
              timers := filter (fun t => handle t ≠ k) (timers h);
              next_handle := next_handle h;
              effects := effects h ++ [Cancel k] |}.

Fixpoint for_each {A} (xs : list A) (body : A -> M unit) : M unit :=
  match xs with
  | [] => mret tt
  | x :: xs' => body x ;; for_each xs' body
  end.

(** ** [TuyaBLECoordinator] *)
Section Coordinator.
Context `{Consts}.

(** [__init__]: a coordinator for [device] in the loop state [h].  The
    constructor also registers the three handlers below with the
    device; the transport then delivers its signals by calling them
    (see [deliver]). *)
Definition init (h : HomeAssistant) (device : TuyaBLEDevice) : World :=
  {| self := {| _device := device;
                _disconnected := true;
                _unsub_disconnect := None |};
     hass := h |}.

(** The [connected] property. *)
Definition connected (w : World) : bool := negb (_disconnected (self w)).

(** [TuyaBLEEntity.available]: an entity reads the coordinator it
    shares with the other entities of the device. *)
Definition available (w : World) : bool := connected w.

(** [_async_handle_connect]. *)
Definition _async_handle_connect : M unit :=
  c ← get_self;
  match _unsub_disconnect c with
  | Some unsub => call_unsub unsub
  | None => mret tt
  end ;;
  c ← get_self;
  if _disconnected c then
    assign_disconnected false ;;
    async_update_listeners
  else mret tt.

(** [_async_handle_update]. *)
Definition _async_handle_update (updates : list TuyaBLEDataPoint)
  : M unit :=
  _async_handle_connect ;;
  async_set_updated_data ;;
  c ← get_self;
  match get_device_product_info (_device c) with
  | Some info =>
      match fingerbot info with
      | Some fb =>
          if negb (manual_control fb =? 0)%Z then
            for_each updates (fun update =>
              if (dp_id update =? switch fb)%Z && changed_by_device update
              then bus_fire FINGERBOT_BUTTON_EVENT
                     (address (_device c)) (device_id (_device c))
              else mret tt)
          else mret tt
      | None => mret tt
      end
  | None => mret tt
  end.

(** [_set_disconnected]: the delayed callback. *)
Definition _set_disconnected : M unit :=
  assign_disconnected true ;;
  assign_unsub_disconnect None ;;
  async_update_listeners.

(** [_async_handle_disconnect]. *)
Definition _async_handle_disconnect : M unit :=
  c ← get_self;
  match _unsub_disconnect c with
  | None =>
      let delay := SET_DISCONNECTED_DELAY in
      k ← async_call_later delay SetDisconnected;
      assign_unsub_disconnect (Some k)
  | Some _ => mret tt
  end.

(** *** The event loop *)

Definition run_action (a : Action) : M unit :=
  match a with
  | SetDisconnected => _set_disconnected
  end.

(** The pending call that runs first: the smallest due time, the
    earlier scheduled one on a tie. *)
Fixpoint earliest (ts : list Timer) : option Timer :=
  match ts with
  | [] => None
  | t :: ts' =>
      match earliest ts' with
      | Some t' => if due t <=? due t' then Some t else Some t'
      | None => Some t
      end
  end.

Definition next_due (target : nat) (ts : list Timer) : option Timer :=
  earliest (filter (fun t => due t ≤ target) ts).

(** The loop runs one delayed call: it leaves the pending ones, the
    clock stands at its due time, its callback runs. *)
Definition fire (t : Timer) : M unit :=
  h ← get_hass;
  set_timers (filter (fun t' => handle t' ≠ handle t) (timers h)) ;;
  set_now (due t) ;;
  emit (Fired (handle t)) ;;
  run_action (action t).

Fixpoint run_due (fuel : nat) (target : nat) : M unit :=
  match fuel with
  | O => mret tt
  | S fuel' =>
      h ← get_hass;
      match next_due target (timers h) with
      | Some t => fire t ;; run_due fuel' target
      | None => mret tt
      end
  end.

(** [dt] ticks pass: every pending call that comes due runs, in due
    order.  No callback of this module schedules a call, so one round
    per pending call is enough. *)
Definition elapse (dt : nat) : M unit :=
  h ← get_hass;
  let target := now h + dt in
  run_due (length (timers h)) target ;;
  set_now target.

(** What reaches the coordinator: the three transport signals and the
    passing of time. *)
Inductive Signal :=
  | Connected
  | DataUpdate (updates : list TuyaBLEDataPoint)
  | Disconnected
  | Elapse (dt : nat).

Definition deliver (s : Signal) : M unit :=
  match s with
  | Connected => _async_handle_connect
  | DataUpdate updates => _async_handle_update updates
  | Disconnected => _async_handle_disconnect
  | Elapse dt => elapse dt
  end.

Fixpoint run (sigs : list Signal) (w : World) : World :=
  match sigs with
  | [] => w
  | s :: sigs' => run sigs' (exec (deliver s) w)
  end.

(** *** Observations *)

(** The effects of a step from [w] to [w']. *)
Definition emitted (w w' : World) : list Effect :=
  drop (length (effects (hass w))) (effects (hass w')).

Definition is_bus_fire (e : Effect) : bool :=
  match e with BusFire _ _ _ => true | _ => false end.

Definition is_fired (e : Effect) : bool :=
  match e with Fired _ => true | _ => false end.

(** The button-press events among some effects. *)
Definition button_events (es : list Effect) : list Effect :=
  List.filter is_bus_fire es.

(** How many delayed callbacks ran. *)
Definition fire_count (es : list Effect) : nat :=
  length (List.filter is_fired es).

(** Broadcasts the coordinator makes itself. *)
Definition listener_updates (es : list Effect) : nat :=
  count_occ Effect_eq_dec es UpdateListeners.

Definition set_data_calls (es : list Effect) : nat :=
  count_occ Effect_eq_dec es SetUpdatedData.

(** Observer notifications: each [async_update_listeners] is one; a
    call of the host's [async_set_updated_data] makes [per_set_data]
    of them. *)
Definition observer_notifications (per_set_data : nat)
    (es : list Effect) : nat :=
  listener_updates es + per_set_data * set_data_calls es.

(** *** Vocabulary of the statements *)

(** The delayed calls still pending. *)
Definition pending (w : World) : list Timer := timers (hass w).

(** The stored unsubscribe, when there is a pending call, is the one of
    that call, and no second call is pending. *)
Definition timer_inv (w : World) : Prop :=
  pending w = []
  ∨ ∃ t, pending w = [t] ∧ _unsub_disconnect (self w) = Some (handle t).

(** A record that reports a press of the button: the switch data point,
    changed on the device itself. *)
Definition is_button_press (fb : TuyaBLEFingerbotInfo)
    (update : TuyaBLEDataPoint) : bool :=
  (dp_id update =? switch fb)%Z && changed_by_device update.

(** The button-press event of [device]. *)
Definition button_event (device : TuyaBLEDevice) : Effect :=
  BusFire FINGERBOT_BUTTON_EVENT (address device) (device_id device).

(** The events a batch is expected to raise: one per reporting record,
    for a product with a Fingerbot descriptor whose [manual_control] is
    not zero; none otherwise. *)
Definition button_presses (device : TuyaBLEDevice)
    (updates : list TuyaBLEDataPoint) : list Effect :=
  match get_device_product_info device with
  | Some info =>
      match fingerbot info with
      | Some fb =>
          if (manual_control fb =? 0)%Z then []
          else map (fun _ => button_event device)
                 (List.filter (is_button_press fb) updates)
      | None => []
      end
  | None => []
  end.

(** The world after [dt] ticks in which no delayed call ran. *)
Definition advanced (dt : nat) (w : World) : World :=
  {| self := self w;
     hass := {| now := now (hass w) + dt;
                timers := timers (hass w);
                next_handle := next_handle (hass w);
                effects := effects (hass w) |} |}.

(** No pending call comes due within the next [dt] ticks. *)
Definition before_due (dt : nat) (w : World) : Prop :=
  ∀ t, t ∈ pending w → now (hass w) + dt < due t.

(** Signals that carry no sign of life. *)
Definition silent (s : Signal) : Prop :=
  match s with
  | Connected | DataUpdate _ => False
  | Disconnected | Elapse _ => True
  end.

(** The effects of one [_async_handle_connect]. *)
Definition connect_effects (w : World) : list Effect :=
  match _unsub_disconnect (self w) with
  | Some k => [Cancel k]
  | None => []
  end ++ (if _disconnected (self w) then [UpdateListeners] else []).

End Coordinator.

(** An empty loop at time zero, and one Fingerbot Plus on it. *)
Definition empty_loop : HomeAssistant :=
  {| now := 0; timers := []; next_handle := 0; effects := [] |}.

Definition sample_device : TuyaBLEDevice :=
  {| address := "DC:23:4D:AA:BB:CC"; device_id := "bf01";
     category := "szjqr"; product_id := "blliqpsj" |}.

(** A plain Fingerbot, whose descriptor has [manual_control = 0]. *)
Definition plain_fingerbot : TuyaBLEDevice :=
  {| address := "DC:23:4D:00:11:22"; device_id := "bf02";
     category := "szjqr"; product_id := "ltak7e1p" |}.

(** A record of data point [i], changed on the device or not. *)
Definition sample_update (i : Z) (by_device : bool) : TuyaBLEDataPoint :=
  {| dp_id := i; dp_value := DPBool true; changed_by_device := by_device |}.

(** A freshly constructed coordinator for the sample device. *)
Definition fresh : World := init empty_loop sample_device.

(** Home Assistant documents [async_set_updated_data] as "manually update
    data, notify listeners and reset refresh interval": one broadcast
    to the listeners per call. *)
Definition ha_set_data_broadcasts : nat := 1.

(** Unfolds the handlers and the monad on a world given by its fields. *)
Ltac run_world :=
  cbv [exec _async_handle_connect _async_handle_disconnect _set_disconnected
       assign_disconnected assign_unsub_disconnect emit set_timers set_now
       async_update_listeners async_set_updated_data bus_fire
       async_call_later call_unsub get_self get_hass put_self put_hass
       mbind M_bind mret M_ret snd fst self hass _device _disconnected
       _unsub_disconnect now timers next_handle effects].

(** The same for the event loop; the choice of the next call to run is
    left folded. *)
Ltac run_loop :=
  cbv [exec elapse run_due fire run_action length
       _set_disconnected assign_disconnected assign_unsub_disconnect emit
       set_timers set_now async_update_listeners get_self get_hass put_self
       put_hass mbind M_bind mret M_ret snd fst self hass _device
       _disconnected _unsub_disconnect now timers next_handle effects
       handle due action].

(** ** Vocabulary for the address helpers *)

(** The characters of a string. *)
Definition chars (s : string) : list ascii := list_ascii_of_string s.

(** An ASCII lower-case letter. *)
Definition lower_case (c : ascii) : Prop :=
  97 ≤ nat_of_ascii c ≤ 122.

(** A character that normalisation leaves alone: no dash and no ASCII
    lower-case letter. *)
Definition normal_char (c : ascii) : Prop :=
  c ≠ "-"%char ∧ ¬ lower_case c.

(** A string in the form [get_full_address] produces. *)
Definition normal_address (s : string) : Prop :=
  ∀ c, In c (chars s) → normal_char c.

(** ** Vocabulary for the coordinator's runs *)
Section RunVocabulary.
Context `{Consts}.

(** A pending countdown is the stored one, is not overdue, ends within
    the delay, and carries a handle the loop has already given out. *)
Definition countdown_ok (w : World) (t : Timer) : Prop :=
  _unsub_disconnect (self w) = Some (handle t)
  ∧ now (hass w) ≤ due t ≤ now (hass w) + SET_DISCONNECTED_DELAY
  ∧ handle t < next_handle (hass w).

Definition countdown_inv (w : World) : Prop :=
  timer_inv w ∧ ∀ t, t ∈ pending w → countdown_ok w t.

(** A signal that shows the device is alive. *)
Definition live (s : Signal) : Prop :=
  match s with
  | Connected | DataUpdate _ => True
  | Disconnected | Elapse _ => False
  end.

(** The product ids of the Fingerbot Plus, the one product whose
    descriptor has a [manual_control] data point. *)
Definition fingerbot_plus_ids : list string :=
  ["blliqpsj"; "ndvkgsrm"; "yiihr7zh"; "neq16kgd"].

End RunVocabulary.

(** ** Python values of type [Any]

    Values whose type the module does not fix: [None], booleans,
    integers and strings. *)
Inductive PyVal :=
  | PyNone
  | PyBool (b : bool)
  | PyInt (z : Z)
  | PyStr (s : string).

#[global] Instance PyVal_eq_dec : EqDecision PyVal.
Proof. solve_decision. Defined.

(** Truth value of a value in a condition. *)
Definition truthy (v : PyVal) : bool :=
  match v with
  | PyNone => false
  | PyBool b => b
  | PyInt z => negb (z =? 0)%Z
  | PyStr s => negb (String.eqb s "")
  end.

(** [a == b]: booleans compare as the integers 0 and 1. *)
Definition py_eq (a b : PyVal) : bool :=
  match a, b with
  | PyNone, PyNone => true
  | PyBool x, PyBool y => Bool.eqb x y
  | PyBool x, PyInt z | PyInt z, PyBool x => (Z.b2z x =? z)%Z
  | PyInt x, PyInt y => (x =? y)%Z
  | PyStr x, PyStr y => String.eqb x y
  | _, _ => false
  end.

(** [a or b]. *)
Definition py_or (a b : PyVal) : PyVal := if truthy a then a else b.

(** [str(v)], which is what an f-string field [{v}] expands to. *)
Definition py_str (v : PyVal) : string :=
  match v with
  | PyNone => "None"
  | PyBool true => "True"
  | PyBool false => "False"
  | PyInt z => pretty z
  | PyStr s => s
  end.

(** A [dict] with string keys and values of type [Any]. *)
Abbreviation PyDict := (gmap string PyVal).

(** [d.get(key)] and [d.get(key, default)]. *)
Definition dict_get (d : PyDict) (key : string) : PyVal :=
  default PyNone (d !! key).

Definition dict_get_or (d : PyDict) (key : string) (dflt : PyVal) : PyVal :=
  default dflt (d !! key).

(** Exceptions, and the outcome of a call that may raise. *)
Inductive Exn :=
  | KeyError (key : string)
  | Exception (msg : string).

Inductive Outcome (A : Type) :=
  | Returned (a : A)
  | Raised (e : Exn).

Arguments Returned {A} a.
Arguments Raised {A} e.

(** A record handed to [_LOGGER]. *)
Inductive LogLevel := DEBUG | WARNING.

Record LogRecord := {
  log_level : LogLevel;
  log_msg : string;
  log_args : list string;
}.

(** [str(err)] of an exception caught as [Exception]. *)
Definition exn_str (e : Exn) : string :=
  match e with
  | KeyError key => "'" ++ key ++ "'"
  | Exception msg => msg
  end.

(** ** The device manager ([.cloud], [.tuya_ble])

    [TuyaBLEDeviceCredentials], with the attributes this code reads. *)
Record TuyaBLEDeviceCredentials := {
  cred_category : string;
  cred_product_id : string;
  cred_device_name : PyVal;
}.

(** A manager object over its own state [St].  A keyword argument that a
    call does not pass is [None] here and takes the manager's default. *)
Record Manager (St : Type) := {
  mgr_login : PyDict → St → Outcome PyDict * St;
  mgr_get_device_credentials :
    PyVal → option bool → option bool → St →
    Outcome (option TuyaBLEDeviceCredentials) * St;
  mgr_data : St → PyDict;
}.

Arguments mgr_login {St} _ _ _.
Arguments mgr_get_device_credentials {St} _ _ _ _ _.
Arguments mgr_data {St} _ _.

(** [BluetoothServiceInfoBleak]: the advertised address and the name of
    the advertising device, which may be [None]. *)
Record BluetoothServiceInfoBleak := {
  bt_address : string;
  bt_device_name : option string;
}.

(** ** [get_device_readable_name] *)
Section ReadableName.
Context `{Consts} {St : Type}.

(** [" [Full MAC: ..., Short: ...]"], the tail of every name. *)
Definition mac_suffix (addr : string) : string :=
  " [Full MAC: " ++ get_full_address addr
  ++ ", Short: " ++ get_short_address addr ++ "]".

(** [discovery_info.device.name or "Unknown BLE Device"]. *)
Definition fallback_name_of (discovery_info : BluetoothServiceInfoBleak)
  : string :=
  match bt_device_name discovery_info with
  | Some n => if String.eqb n "" then "Unknown BLE Device" else n
  | None => "Unknown BLE Device"
  end.

Record ReadableName := {
  rn_name : string;
  rn_logs : list LogRecord;
  rn_state : option St;
}.

(** [get_device_readable_name(discovery_info, manager)]; the manager,
    when there is one, comes with its state. *)
Definition get_device_readable_name
    (discovery_info : BluetoothServiceInfoBleak)
    (manager : option (Manager St * St)) : ReadableName :=
  let full_mac := get_full_address (bt_address discovery_info) in
  let short_mac := get_short_address (bt_address discovery_info) in
  let log0 :=
    {| log_level := DEBUG;
       log_msg := "Discovered device with full MAC: %s, short MAC: %s";
       log_args := [full_mac; short_mac] |} in
  let '(credentials, product_info, logs, state) :=
    match manager with
    | Some (m, s) =>
        let '(credentials, logs, s') :=
          match mgr_get_device_credentials m
                  (PyStr (bt_address discovery_info)) None None s with
          | (Returned c, s') => (c, [], s')
          | (Raised err, s') =>
              (None,
               [{| log_level := WARNING;
                   log_msg :=
                     "Error retrieving device credentials for %s (%s): %s";
                   log_args := [full_mac; short_mac; exn_str err] |}],
               s')
          end in
        let product_info :=
          match credentials with
          | Some c =>
              get_product_info_by_ids (cred_category c) (cred_product_id c)
          | None => None
          end in
        (credentials, product_info, logs, Some s')
    | None => (None, None, [], None)
    end in
  let fallback_name := fallback_name_of discovery_info in
  let name :=
    match product_info with
    | Some p =>
        name p ++ " (" ++ fallback_name ++ ") [Full MAC: " ++ full_mac
        ++ ", Short: " ++ short_mac ++ "]"
    | None =>
        match credentials with
        | Some c =>
            py_str (cred_device_name c) ++ " (" ++ fallback_name
            ++ ") [Full MAC: " ++ full_mac ++ ", Short: " ++ short_mac ++ "]"
        | None =>
            fallback_name ++ " [Full MAC: " ++ full_mac
            ++ ", Short: " ++ short_mac ++ "]"
        end
    end in
  {| rn_name := name; rn_logs := log0 :: logs; rn_state := state |}.

End ReadableName.

(** ** [get_device_info] and [TuyaBLEEntity] *)

(** Names the module takes from the host and from [.const]:
    [dr.CONNECTION_BLUETOOTH] and [DOMAIN]. *)
Class HostNames := {
  CONNECTION_BLUETOOTH : string;
  DOMAIN : string;
}.

(** A [TuyaBLEDevice] with the descriptive attributes that
    [get_device_info] reads. *)
Record DescribedDevice := {
  dd_device : TuyaBLEDevice;
  dd_name : PyVal;
  dd_hardware_version : PyVal;
  dd_product_model : PyVal;
  dd_device_version : PyVal;
  dd_protocol_version : PyVal;
}.

(** [DeviceInfo]; the two sets are given by their elements. *)
Record DeviceInfo := {
  di_connections : list (string * string);
  di_hw_version : PyVal;
  di_identifiers : list (string * string);
  di_manufacturer : string;
  di_model : string;
  di_name : string;
  di_sw_version : string;
}.

Section DeviceInfoOf.
Context `{Consts} `{HostNames}.

(** [get_device_info]; the second component is the debug record it
    logs. *)
Definition get_device_info (device : DescribedDevice)
  : DeviceInfo * LogRecord :=
  let dev := dd_device device in
  let product_info := get_device_product_info dev in
  let product_name :=
    match product_info with
    | Some p => PyStr (name p)
    | None => dd_name device
    end in
  let manufacturer :=
    match product_info with
    | Some p => manufacturer p
    | None => DEVICE_DEF_MANUFACTURER
    end in
  let full_mac := get_full_address (address dev) in
  let short_mac := get_short_address (address dev) in
  ({| di_connections := [(CONNECTION_BLUETOOTH, address dev)];
      di_hw_version := dd_hardware_version device;
      di_identifiers := [(DOMAIN, address dev)];
      di_manufacturer := manufacturer;
      di_model :=
        py_str (py_or (dd_product_model device) product_name)
        ++ " (" ++ product_id dev ++ ")";
      di_name :=
        py_str product_name ++ " [Full MAC: " ++ full_mac
        ++ ", Short: " ++ short_mac ++ "]";
      di_sw_version :=
        py_str (dd_device_version device) ++ " (protocol "
        ++ py_str (dd_protocol_version device) ++ ")" |},
   {| log_level := DEBUG;
      log_msg :=
        "Building device info for device_id=%s: name='%s', "
        ++ "manufacturer='%s', full_mac='%s', short_mac='%s'";
      log_args := [device_id dev; py_str product_name; manufacturer;
                   full_mac; short_mac] |}).

(** [EntityDescription], with the two attributes the entity reads. *)
Record EntityDescription := {
  key : string;
  translation_key : option string;
}.

(** The attributes [TuyaBLEEntity.__init__] sets.  An attribute the
    constructor leaves alone is [None]. *)
Record TuyaBLEEntity := {
  _attr_translation_key : option string;
  entity_description : EntityDescription;
  _attr_has_entity_name : bool;
  _attr_device_info : DeviceInfo;
  _attr_unique_id : string;
  entity_id : string;
}.

(** [TuyaBLEEntity.__init__]; [generate_entity_id] is the host's. *)
Definition entity_init (generate_entity_id : string → string → string)
    (device : DescribedDevice) (description : EntityDescription)
  : TuyaBLEEntity :=
  let unique_id := device_id (dd_device device) ++ "-" ++ key description in
  {| _attr_translation_key :=
       match translation_key description with
       | None => Some (key description)
       | Some _ => None
       end;
     entity_description := description;
     _attr_has_entity_name := true;
     _attr_device_info := (get_device_info device).1;
     _attr_unique_id := unique_id;
     entity_id := generate_entity_id "sensor.{}" unique_id |}.

End DeviceInfoOf.

(** The warnings among some log records. *)
Definition warnings (logs : list LogRecord) : list LogRecord :=
  List.filter
    (fun r => match log_level r with WARNING => true | DEBUG => false end)
    logs.

(** A manager without state that answers every credential lookup with
    [answer] and refuses every login. *)
Definition constant_manager
    (answer : Outcome (option TuyaBLEDeviceCredentials)) : Manager unit :=
  {| mgr_login := fun _ s => (Returned ∅, s);
     mgr_get_device_credentials := fun _ _ _ s => (answer, s);
     mgr_data := fun _ => ∅ |}.

Definition sample_discovery : BluetoothServiceInfoBleak :=
  {| bt_address := "dc-23-4d-aa-bb-cc"; bt_device_name := Some "TY" |}.

Definition sample_credentials : TuyaBLEDeviceCredentials :=
  {| cred_category := "szjqr"; cred_product_id := "blliqpsj";
     cred_device_name := PyStr "Desk button" |}.

Definition sample_host_names : HostNames :=
  {| CONNECTION_BLUETOOTH := "bluetooth"; DOMAIN := "tuya_ble" |}.

Definition sample_described : DescribedDevice :=
  {| dd_device := sample_device;
     dd_name := PyStr "TY";
     dd_hardware_version := PyStr "1.0";
     dd_product_model := PyStr "";
     dd_device_version := PyStr "2.1";
     dd_protocol_version := PyInt 3 |}.

(** ** The login step of the config flow ([config_flow.py]) *)

(** An entry of [TUYA_COUNTRIES]: [name], [country_code] and
    [endpoint.value]. *)
Record Country := {
  country_name : PyVal;
  country_code : PyVal;
  country_endpoint : PyVal;
}.

(** Constants the flow imports: the keys of the dicts, the two app
    types, the country table, the keys of a cloud response, and the
    values of [AuthType.CUSTOM] and [AuthType.SMART_HOME]. *)
Class FlowConsts := {
  CONF_COUNTRY_CODE : string;
  CONF_PASSWORD : string;
  CONF_USERNAME : string;
  CONF_ACCESS_ID : string;
  CONF_ACCESS_SECRET : string;
  CONF_AUTH_TYPE : string;
  CONF_ENDPOINT : string;
  CONF_APP_TYPE : string;
  SMARTLIFE_APP : PyVal;
  TUYA_SMART_APP : PyVal;
  TUYA_COUNTRIES : list Country;
  TUYA_RESPONSE_CODE : string;
  TUYA_RESPONSE_MSG : string;
  TUYA_RESPONSE_SUCCESS : string;
  AUTH_TYPE_CUSTOM : PyVal;
  AUTH_TYPE_SMART_HOME : PyVal;
}.

(** A field of the form schema: [vol.Required(key, default=...)] and
    its validator, [vol.In(choices)] or [str]. *)
Inductive Validator :=
  | VIn (choices : list PyVal)
  | VStr.

Record Required := {
  req_key : string;
  req_default : PyVal;
  req_validator : Validator;
}.

(** The arguments of [flow.async_show_form]. *)
Record Form := {
  step_id : string;
  data_schema : list Required;
  form_errors : gmap string string;
  description_placeholders : PyDict;
}.

Section Login.
Context `{FlowConsts} {St : Type}.

(** [next((country for country in countries
            if country.name == user_input[CONF_COUNTRY_CODE]), None)]:
    the subscript is evaluated for each country that is tried. *)
Fixpoint first_country (countries : list Country) (user_input : PyDict)
  : Outcome (option Country) :=
  match countries with
  | [] => Returned None
  | country :: rest =>
      match user_input !! CONF_COUNTRY_CODE with
      | None => Raised (KeyError CONF_COUNTRY_CODE)
      | Some chosen =>
          if py_eq (country_name country) chosen
          then Returned (Some country)
          else first_country rest user_input
      end
  end.

(** The dict display that starts [data]. *)
Definition login_data (country : Country) (user_input : PyDict) : PyDict :=
  dict_of
    [ (CONF_ENDPOINT, country_endpoint country);
      (CONF_AUTH_TYPE, AUTH_TYPE_CUSTOM);
      (CONF_ACCESS_ID, dict_get_or user_input CONF_ACCESS_ID (PyStr ""));
      (CONF_ACCESS_SECRET,
       dict_get_or user_input CONF_ACCESS_SECRET (PyStr ""));
      (CONF_USERNAME, dict_get_or user_input CONF_USERNAME (PyStr ""));
      (CONF_PASSWORD, dict_get_or user_input CONF_PASSWORD (PyStr ""));
      (CONF_COUNTRY_CODE, country_code country) ].

(** The two assignments at the head of the loop body. *)
Definition with_app_type (app_type : PyVal) (data : PyDict) : PyDict :=
  <[CONF_AUTH_TYPE :=
      if truthy app_type then AUTH_TYPE_SMART_HOME else AUTH_TYPE_CUSTOM]>
    (<[CONF_APP_TYPE :=
         if truthy app_type then app_type else SMARTLIFE_APP]> data).

(** How the loop over the app types ends. *)
Inductive LoopEnd :=
  | LoginAccepted (data : PyDict)
  | LoginRefused (response : option PyDict)
  | LoginRaised (e : Exn).

(** The [for app_type in ...] loop: [data] is the dict as the previous
    round left it, [response] the previous response, [calls] the dicts
    passed to [manager._login] so far. *)
Fixpoint login_loop (m : Manager St) (app_types : list PyVal)
    (data : PyDict) (response : option PyDict) (s : St)
    (calls : list PyDict) : LoopEnd * St * list PyDict :=
  match app_types with
  | [] => (LoginRefused response, s, calls)
  | app_type :: rest =>
      let data := with_app_type app_type data in
      match mgr_login m data s with
      | (Raised e, s') => (LoginRaised e, s', (calls ++ [data])%list)
      | (Returned response, s') =>
          if truthy (dict_get_or response TUYA_RESPONSE_SUCCESS
                       (PyBool false))
          then (LoginAccepted data, s', (calls ++ [data])%list)
          else login_loop m rest data (Some response) s' ((calls ++ [data])%list)
      end
  end.

(** What [_try_login] leaves behind: its result, the two dicts it
    updates in place, the manager's state, and the login calls made. *)
Record LoginAttempt := {
  la_result : Outcome (option PyDict);
  la_errors : gmap string string;
  la_placeholders : PyDict;
  la_state : St;
  la_calls : list PyDict;
}.

(** [placeholders.update({...})] after the last refusal; an empty
    response is falsy and updates nothing. *)
Definition refusal_placeholders (response : option PyDict)
    (placeholders : PyDict) : PyDict :=
  match response with
  | Some r =>
      if bool_decide (r = ∅) then placeholders
      else <["tuya_response_msg" := dict_get r TUYA_RESPONSE_MSG]>
             (<["tuya_response_code" := dict_get r TUYA_RESPONSE_CODE]>
                placeholders)
  | None => placeholders
  end.

(** The app types tried, in order. *)
Definition app_types : list PyVal :=
  [TUYA_SMART_APP; SMARTLIFE_APP; PyStr ""].

(** [_try_login]. *)
Definition _try_login (m : Manager St) (s : St) (user_input : PyDict)
    (errors : gmap string string) (placeholders : PyDict) : LoginAttempt :=
  match first_country TUYA_COUNTRIES user_input with
  | Raised e =>
      {| la_result := Raised e; la_errors := errors;
         la_placeholders := placeholders; la_state := s; la_calls := [] |}
  | Returned None =>
      {| la_result := Returned None;
         la_errors := <["base" := "invalid_country"]> errors;
         la_placeholders := placeholders; la_state := s; la_calls := [] |}
  | Returned (Some country) =>
      let data := login_data country user_input in
      match login_loop m app_types data None s [] with
      | (LoginAccepted data, s', calls) =>
          {| la_result := Returned (Some data); la_errors := errors;
             la_placeholders := placeholders; la_state := s';
             la_calls := calls |}
      | (LoginRaised e, s', calls) =>
          {| la_result := Raised e; la_errors := errors;
             la_placeholders := placeholders; la_state := s';
             la_calls := calls |}
      | (LoginRefused response, s', calls) =>
          {| la_result := Returned None;
             la_errors := <["base" := "login_error"]> errors;
             la_placeholders := refusal_placeholders response placeholders;
             la_state := s'; la_calls := calls |}
      end
  end.

(** The [for ... break] loop of [_show_login_form]: the name of the
    first country with the given code. *)
Fixpoint country_name_for (countries : list Country) (code : PyVal)
  : option PyVal :=
  match countries with
  | [] => None
  | country :: rest =>
      if py_eq (country_code country) code
      then Some (country_name country)
      else country_name_for rest code
  end.

(** [user_input] as the first block of [_show_login_form] leaves it. *)
Definition show_country_name (user_input : PyDict) : PyDict :=
  if bool_decide (user_input ≠ ∅)
     && truthy (dict_get user_input CONF_COUNTRY_CODE)
  then
    match country_name_for TUYA_COUNTRIES
            (dict_get user_input CONF_COUNTRY_CODE) with
    | Some n => <[CONF_COUNTRY_CODE := n]> user_input
    | None => user_input
    end
  else user_input.

(** [_show_login_form].  [def_country] is what
    [pycountry.countries.get(alpha_2=flow.hass.config.country)] does:
    it raises, finds nothing, or finds a country of that name.  The
    result is the form shown, [user_input] as updated in place, and the
    warnings logged. *)
Definition _show_login_form (def_country : Outcome (option PyVal))
    (user_input : PyDict) (errors : gmap string string)
    (placeholders : PyDict) : Form * PyDict * list LogRecord :=
  let user_input := show_country_name user_input in
  let '(default_country_name, logs) :=
    match def_country with
    | Returned (Some n) => (n, [])
    | Returned None => (PyNone, [])
    | Raised e =>
        (PyNone,
         [{| log_level := WARNING;
             log_msg := "Error fetching default country: %s";
             log_args := [exn_str e] |}])
    end in
  ({| step_id := "login";
      data_schema :=
        [ {| req_key := CONF_COUNTRY_CODE;
             req_default :=
               dict_get_or user_input CONF_COUNTRY_CODE default_country_name;
             req_validator := VIn (map country_name TUYA_COUNTRIES) |};
          {| req_key := CONF_ACCESS_ID;
             req_default := dict_get_or user_input CONF_ACCESS_ID (PyStr "");
             req_validator := VStr |};
          {| req_key := CONF_ACCESS_SECRET;
             req_default :=
               dict_get_or user_input CONF_ACCESS_SECRET (PyStr "");
             req_validator := VStr |};
          {| req_key := CONF_USERNAME;
             req_default := dict_get_or user_input CONF_USERNAME (PyStr "");
             req_validator := VStr |};
          {| req_key := CONF_PASSWORD;
             req_default := dict_get_or user_input CONF_PASSWORD (PyStr "");
             req_validator := VStr |} ];
      form_errors := errors;
      description_placeholders := placeholders |},
   user_input, logs).

(** The default the form shows for a field. *)
Definition form_default (form : Form) (key : string) : option PyVal :=
  req_default <$> List.find (fun r => String.eqb (req_key r) key)
                    (data_schema form).

End Login.

(** Sample constants of the flow, with a table of three countries. *)
Definition sample_flow_consts : FlowConsts :=
  {| CONF_COUNTRY_CODE := "country_code";
     CONF_PASSWORD := "password";
     CONF_USERNAME := "username";
     CONF_ACCESS_ID := "access_id";
     CONF_ACCESS_SECRET := "access_secret";
     CONF_AUTH_TYPE := "auth_type";
     CONF_ENDPOINT := "endpoint";
     CONF_APP_TYPE := "tuya_app_type";
     SMARTLIFE_APP := PyStr "smartlife";
     TUYA_SMART_APP := PyStr "tuyaSmart";
     TUYA_COUNTRIES :=
       [ {| country_name := PyStr "Austria"; country_code := PyStr "43";
            country_endpoint := PyStr "https://openapi.tuyaeu.com" |};
         {| country_name := PyStr "Canada"; country_code := PyStr "1";
            country_endpoint := PyStr "https://openapi.tuyaus.com" |};
         {| country_name := PyStr "Japan"; country_code := PyStr "81";
            country_endpoint := PyStr "https://openapi.tuyaus.com" |} ];
     TUYA_RESPONSE_CODE := "code";
     TUYA_RESPONSE_MSG := "msg";
     TUYA_RESPONSE_SUCCESS := "success";
     AUTH_TYPE_CUSTOM := PyInt 1;
     AUTH_TYPE_SMART_HOME := PyInt 0 |}.

(** A cloud that accepts a login exactly for the app type [accepted],
    and counts the logins it has seen. *)
Definition picky_cloud (accepted : PyVal) : Manager nat :=
  {| mgr_login := fun data n =>
       (Returned
          (if py_eq (dict_get data "tuya_app_type") accepted
              && py_eq (dict_get data "auth_type") (PyInt 0)
           then {["success" := PyBool true]}
           else dict_of [("success", PyBool false); ("code", PyInt 1106);
                         ("msg", PyStr "permission deny")]),
        S n);
     mgr_get_device_credentials := fun _ _ _ n => (Returned None, n);
     mgr_data := fun _ => ∅ |}.

Definition sample_user_input : PyDict :=
  dict_of [("country_code", PyStr "Canada"); ("username", PyStr "ann");
           ("password", PyStr "pw")].

(** ** Vocabulary for the login step *)
Section LoginVocabulary.
Context `{FlowConsts} {St : Type}.

(** A response the loop takes as a refusal. *)
Definition refused (response : PyDict) : Prop :=
  truthy (dict_get_or response TUYA_RESPONSE_SUCCESS (PyBool false)) = false.

(** The dicts of the three login calls, for the first dict [data]. *)
Definition login_calls (data : PyDict) : list PyDict :=
  map (fun app_type => with_app_type app_type data) app_types.


(** No two countries of the table share a country code unless they
    share the name. *)
Definition codes_name_countries : Prop :=
  ∀ c1 c2, In c1 TUYA_COUNTRIES → In c2 TUYA_COUNTRIES →
    py_eq (country_code c1) (country_code c2) = true →
    country_name c1 = country_name c2.

End LoginVocabulary.

(** A cloud that refuses every login with the same answer, and counts
    the logins it has seen. *)
Definition refusing_cloud : Manager nat :=
  {| mgr_login := fun _ n =>
       (Returned (dict_of [("success", PyBool false); ("code", PyInt 1106);
                           ("msg", PyStr "permission deny")]),
        S n);
     mgr_get_device_credentials := fun _ _ _ n => (Returned None, n);
     mgr_data := fun _ => ∅ |}.

Definition canada : Country :=
  {| country_name := PyStr "Canada"; country_code := PyStr "1";
     country_endpoint := PyStr "https://openapi.tuyaus.com" |}.

(** * Properties *)

(** ** Addresses *)

Example short_address_mac :
  get_short_address "aa-bb-cc:dd:ee:ff" = "DD:EE:FF".
Proof. reflexivity. Qed.

Example short_address_plain : get_short_address "fingerbot" = "FINGERBOT".
Proof. reflexivity. Qed.

Module StrFacts.
Import Str.

Lemma split_nonempty sep s : split sep s ≠ [].
Proof.
  destruct s as [|c s]; simpl; [discriminate|].
  destruct (Ascii.eqb c sep); [discriminate|].
  destruct (split sep s); discriminate.
Qed.

(** Joining the groups of a split with the separator gives the string
    back. *)
Lemma join_split sep s :
  join (String sep EmptyString) (split sep s) = s.
Proof.
  induction s as [|c s IH]; simpl; [reflexivity|].
  destruct (Ascii.eqb_spec c sep) as [->|Hne].
  - pose proof (split_nonempty sep s) as Hs.
    destruct (split sep s) as [|p ps]; [contradiction|].
    simpl in *. now rewrite IH.
  - pose proof (split_nonempty sep s) as Hs.
    destruct (split sep s) as [|p ps]; [contradiction|].
    destruct ps as [|q qs]; simpl in *; now rewrite <- IH.
Qed.

Lemma last_n_short {A} n (xs : list A) :
  length xs ≤ n → last_n n xs = xs.
Proof.
  intros Hle. unfold last_n.
  replace (length xs - n) with 0 by lia. reflexivity.
Qed.

Lemma last_n_app {A} (pre xs : list A) :
  last_n (length xs) (pre ++ xs) = xs.
Proof.
  unfold last_n. rewrite length_app.
  replace (length pre + length xs - length xs) with (length pre) by lia.
  now rewrite drop_app_length.
Qed.

(** A string without the separator is one group. *)
Lemma split_no_sep sep s :
  (∀ c, In c (list_ascii_of_string s) → c ≠ sep) → split sep s = [s].
Proof.
  induction s as [|c s IH]; simpl; intros Hno; [reflexivity|].
  destruct (Ascii.eqb_spec c sep) as [->|Hne].
  - exfalso. apply (Hno sep); [now left | reflexivity].
  - rewrite IH; [reflexivity|]. intros c' Hin. apply Hno. now right.
Qed.

Lemma upper_char_colon c : upper_char c = ":"%char → c = ":"%char.
Proof.
  destruct c as [[] [] [] [] [] [] [] []]; vm_compute; congruence.
Qed.

Lemma In_upper c s :
  In c (list_ascii_of_string (upper s)) →
  ∃ c', In c' (list_ascii_of_string s) ∧ c = upper_char c'.
Proof.
  induction s as [|d s IH]; simpl; [tauto|].
  intros [<-|Hin]; [eauto|].
  destruct (IH Hin) as (c' & Hc' & ->). eauto.
Qed.

Lemma In_replace old new c s :
  In c (list_ascii_of_string (replace old new s)) →
  ∃ c', In c' (list_ascii_of_string s)
        ∧ c = (if Ascii.eqb c' old then new else c').
Proof.
  induction s as [|d s IH]; simpl; [tauto|].
  intros [<-|Hin]; [eauto|].
  destruct (IH Hin) as (c' & Hc' & ->). eauto.
Qed.

End StrFacts.

(** An address with neither [:] nor [-] normalises to a string without
    [:]. *)
Lemma full_address_no_colon address :
  (∀ c, In c (list_ascii_of_string address) → c ≠ ":"%char ∧ c ≠ "-"%char) →
  ∀ c, In c (list_ascii_of_string (get_full_address address)) → c ≠ ":"%char.
Proof.
  intros Hno c Hin Hc. subst c. unfold get_full_address in Hin.
  apply StrFacts.In_upper in Hin as (c1 & Hin & Hup).
  symmetry in Hup. apply StrFacts.upper_char_colon in Hup. subst c1.
  apply StrFacts.In_replace in Hin as (c2 & Hin & Hrep).
  destruct (Hno c2 Hin) as [Hcolon Hdash].
  destruct (Ascii.eqb_spec c2 "-"%char); congruence.
Qed.

(** C9. [get_short_address] is the colon-join of the last three
    colon-separated groups of [get_full_address]: when the normalised
    address ends in the groups [a], [b], [c] the result is [a:b:c]; when
    it has three groups or fewer, and in particular when the address has
    no [:] and no [-], the normalised address is returned whole. *)
Theorem get_short_address_last_three_groups (address : string) :
  let full := get_full_address address in
  let parts := Str.split ":" full in
  get_short_address address = Str.join ":" (Str.last_n 3 parts)
  ∧ (∀ (pre : list string) (a b c : string),
       parts = (pre ++ [a; b; c])%list →
       get_short_address address = (a ++ ":" ++ b ++ ":" ++ c)%string)
  ∧ (length parts ≤ 3 → get_short_address address = full)
  ∧ ((∀ c, In c (list_ascii_of_string address) →
           c ≠ ":"%char ∧ c ≠ "-"%char) →
     get_short_address address = full).
Proof.
  intros full parts. repeat split.
  - intros pre a b c Hparts. unfold get_short_address.
    fold full. fold parts. rewrite Hparts.
    pose proof (StrFacts.last_n_app pre [a; b; c]) as E.
    cbn [length] in E. now rewrite E.
  - intros Hlen. unfold get_short_address. fold full. fold parts.
    rewrite StrFacts.last_n_short by exact Hlen.
    apply StrFacts.join_split.
  - intros Hno. unfold get_short_address. fold full.
    rewrite (StrFacts.split_no_sep ":" full).
    + reflexivity.
    + apply full_address_no_colon, Hno.
Qed.

Lemma get_short_address_last_three_groups_witness :
  get_short_address "aa-bb-cc-dd-ee-ff" = "DD:EE:FF"
  ∧ get_short_address "ee-ff" = "EE:FF"
  ∧ get_short_address "fingerbot" = "FINGERBOT".
Proof.
  pose proof (get_short_address_last_three_groups "aa-bb-cc-dd-ee-ff")
    as (_ & H3 & _).
  pose proof (get_short_address_last_three_groups "ee-ff") as (_ & _ & H2 & _).
  pose proof (get_short_address_last_three_groups "fingerbot")
    as (_ & _ & _ & H1).
  split; [|split].
  - exact (H3 ["AA"; "BB"; "CC"]%string "DD" "EE" "FF"%string eq_refl).
  - apply H2. vm_compute. lia.
  - apply H1. intros c Hin. vm_compute in Hin.
    repeat (destruct Hin as [<-|Hin]; [split; discriminate|]). contradiction.
Defined.

(** ** The product database *)

Example lookup_fingerbot_plus :
  name <$> @get_product_info_by_ids sample_consts "szjqr" "yiihr7zh"
  = Some "Fingerbot Plus"%string.
Proof. vm_compute. reflexivity. Qed.

Example lookup_unknown_product :
  @get_product_info_by_ids sample_consts "szjqr" "nope" = None.
Proof. vm_compute. reflexivity. Qed.

(** Whatever a dict display holds under a key is one of its items. *)
Lemma dict_of_lookup_elem {V} (items : list (string * V)) k v :
  dict_of items !! k = Some v → (k, v) ∈ items.
Proof.
  unfold dict_of.
  assert (Hgen : ∀ m : gmap string V,
             foldl (fun m kv => <[kv.1 := kv.2]> m) m items !! k = Some v →
             (k, v) ∈ items ∨ m !! k = Some v).
  { induction items as [|[k' v'] items IH]; intros m Hm; simpl in *.
    - now right.
    - destruct (IH _ Hm) as [Hin|Hins].
      + left. now apply elem_of_cons; right.
      + destruct (decide (k' = k)) as [->|Hne].
        * rewrite lookup_insert_eq in Hins. injection Hins as ->.
          left. apply elem_of_cons. now left.
        * rewrite lookup_insert_ne in Hins by exact Hne. now right. }
  intros Hm. destruct (Hgen ∅ Hm) as [Hin|Hempty]; [exact Hin|].
  rewrite lookup_empty in Hempty. discriminate.
Qed.

Section DatabaseFacts.
Context `{Consts}.

(** No category of the shipped database has a category-level entry. *)
Lemma devices_database_info_none category category_info :
  devices_database !! category = Some category_info →
  info category_info = None.
Proof.
  intros Hget. apply dict_of_lookup_elem in Hget.
  unfold devices_database_items in Hget.
  repeat (apply elem_of_cons in Hget as [Heq|Hget];
          [injection Heq as _ ->; reflexivity|]).
  now apply elem_of_nil in Hget.
Qed.

(** The three cases of the lookup, over any database. *)
Lemma product_info_in_cases db category product_id :
  match db !! category with
  | None => product_info_in db category product_id = None
  | Some category_info =>
      match products category_info !! product_id with
      | Some product_info =>
          product_info_in db category product_id = Some product_info
      | None =>
          product_info_in db category product_id = info category_info
      end
  end.
Proof.
  unfold product_info_in.
  destruct (db !! category) as [category_info|]; [|reflexivity].
  destruct (products category_info !! product_id); reflexivity.
Qed.

(** C10. [get_product_info_by_ids] is total and returns an optional
    product: the entry itself when the category exists and holds the
    product id; otherwise the category-level [info], which is [None] in
    every category of [devices_database], so an unknown product id in a
    known category gives [None]; and [None] for an unknown category. *)
Theorem get_product_info_by_ids_cases (category product_id : string) :
  (∀ category_info product_info,
      devices_database !! category = Some category_info →
      products category_info !! product_id = Some product_info →
      get_product_info_by_ids category product_id = Some product_info)
  ∧ (∀ category_info,
      devices_database !! category = Some category_info →
      products category_info !! product_id = None →
      get_product_info_by_ids category product_id = info category_info
      ∧ info category_info = None
      ∧ get_product_info_by_ids category product_id = None)
  ∧ (devices_database !! category = None →
     get_product_info_by_ids category product_id = None).
Proof.
  unfold get_product_info_by_ids.
  pose proof (product_info_in_cases devices_database category product_id)
    as Hcases.
  split; [|split].
  - intros ci p Hc Hp. now rewrite Hc, Hp in Hcases.
  - intros ci Hc Hp. rewrite Hc, Hp in Hcases.
    pose proof (devices_database_info_none _ _ Hc) as Hnone.
    repeat split; congruence.
  - intros Hc. now rewrite Hc in Hcases.
Qed.

End DatabaseFacts.

Lemma get_product_info_by_ids_cases_witness :
  @get_product_info_by_ids sample_consts "szjqr" "yiihr7zh"
  = Some (@product sample_consts "Fingerbot Plus"
            (Some (@fingerbot_plus_dps)))
  ∧ @get_product_info_by_ids sample_consts "szjqr" "nope" = None
  ∧ @get_product_info_by_ids sample_consts "light" "yiihr7zh" = None.
Proof.
  split; [|split].
  - destruct (@get_product_info_by_ids_cases sample_consts "szjqr" "yiihr7zh")
      as (Hfound & _ & _).
    eapply Hfound; vm_compute; reflexivity.
  - destruct (@get_product_info_by_ids_cases sample_consts "szjqr" "nope")
      as (_ & Hdefault & _).
    eapply Hdefault; vm_compute; reflexivity.
  - destruct (@get_product_info_by_ids_cases sample_consts "light" "yiihr7zh")
      as (_ & _ & Hmissing).
    apply Hmissing. vm_compute. reflexivity.
Defined.

(** ** The coordinator *)

Local Open Scope list_scope.
Section CoordinatorFacts.
Context `{Consts}.

Implicit Types (w : World) (k : Handle) (t : Timer).

(** *** What each handler does to the world *)

Lemma connect_self w :
  self (exec _async_handle_connect w)
  = {| _device := _device (self w);
       _disconnected := false;
       _unsub_disconnect := _unsub_disconnect (self w) |}.
Proof.
  destruct w as [[dev d u] [n ts nh es]].
  destruct u as [k|], d; reflexivity.
Qed.

Lemma connect_hass w :
  hass (exec _async_handle_connect w)
  = {| now := now (hass w);
       timers := match _unsub_disconnect (self w) with
                 | Some k => filter (fun t => handle t ≠ k) (timers (hass w))
                 | None => timers (hass w)
                 end;
       next_handle := next_handle (hass w);
       effects := effects (hass w)
                  ++ match _unsub_disconnect (self w) with
                     | Some k => [Cancel k]
                     | None => []
                     end
                  ++ (if _disconnected (self w) then [UpdateListeners]
                      else []) |}.
Proof.
  destruct w as [[dev d u] [n ts nh es]].
  destruct u as [k|], d; run_world;
    rewrite <- ?app_assoc, ?app_nil_r; reflexivity.
Qed.

Lemma disconnect_idle w :
  _unsub_disconnect (self w) = None →
  exec _async_handle_disconnect w
  = {| self := {| _device := _device (self w);
                  _disconnected := _disconnected (self w);
                  _unsub_disconnect := Some (next_handle (hass w)) |};
       hass := {| now := now (hass w);
                  timers := timers (hass w)
                            ++ [{| handle := next_handle (hass w);
                                   due := now (hass w) + SET_DISCONNECTED_DELAY;
                                   action := SetDisconnected |}];
                  next_handle := S (next_handle (hass w));
                  effects := effects (hass w)
                             ++ [CallLater (next_handle (hass w))
                                   SET_DISCONNECTED_DELAY] |} |}.
Proof.
  destruct w as [[dev d u] [n ts nh es]]. cbn. intros ->. reflexivity.
Qed.

Lemma disconnect_held w k :
  _unsub_disconnect (self w) = Some k →
  exec _async_handle_disconnect w = w.
Proof.
  destruct w as [[dev d u] [n ts nh es]]. cbn. intros ->. reflexivity.
Qed.

Lemma set_disconnected_world w :
  exec _set_disconnected w
  = {| self := {| _device := _device (self w);
                  _disconnected := true;
                  _unsub_disconnect := None |};
       hass := {| now := now (hass w);
                  timers := timers (hass w);
                  next_handle := next_handle (hass w);
                  effects := effects (hass w) ++ [UpdateListeners] |} |}.
Proof. destruct w as [[dev d u] [n ts nh es]]. reflexivity. Qed.

Lemma exec_bind {A B} (m : M A) (f : A → M B) w :
  exec (m ≫= f) w = exec (f (m w).1) (exec m w).
Proof. unfold exec, mbind, M_bind. destruct (m w). reflexivity. Qed.

(** The scan of a batch only adds button events, one per reporting
    record, in the order of the records. *)
Lemma scan_world (fb : TuyaBLEFingerbotInfo) (device : TuyaBLEDevice)
    (updates : list TuyaBLEDataPoint) w :
  exec (for_each updates (fun update =>
          if (dp_id update =? switch fb)%Z && changed_by_device update
          then bus_fire FINGERBOT_BUTTON_EVENT
                 (address device) (device_id device)
          else mret tt)) w
  = {| self := self w;
       hass := {| now := now (hass w);
                  timers := timers (hass w);
                  next_handle := next_handle (hass w);
                  effects := effects (hass w)
                             ++ map (fun _ => button_event device)
                                  (List.filter (is_button_press fb) updates)
               |} |}.
Proof.
  revert w. induction updates as [|update updates IH]; intros w.
  - destruct w as [c [n ts nh es]]. cbn. now rewrite app_nil_r.
  - cbn [for_each]. rewrite exec_bind, IH. cbn [List.filter].
    unfold is_button_press at 2.
    destruct ((dp_id update =? switch fb)%Z && changed_by_device update);
      destruct w as [c [n ts nh es]]; run_world; cbn [map];
      rewrite <- ?app_assoc; reflexivity.
Qed.

Lemma update_world (updates : list TuyaBLEDataPoint) w :
  let w1 := exec _async_handle_connect w in
  exec (_async_handle_update updates) w
  = {| self := self w1;
       hass := {| now := now (hass w1);
                  timers := timers (hass w1);
                  next_handle := next_handle (hass w1);
                  effects := effects (hass w1)
                             ++ SetUpdatedData
                                :: button_presses (_device (self w)) updates
               |} |}.
Proof.
  intros w1. unfold _async_handle_update.
  rewrite !exec_bind. fold w1.
  assert (Hdev : _device (self w1) = _device (self w))
    by (unfold w1; now rewrite connect_self).
  set (w2 := exec async_set_updated_data w1).
  assert (Hw2 : w2 = {| self := self w1;
                        hass := {| now := now (hass w1);
                                   timers := timers (hass w1);
                                   next_handle := next_handle (hass w1);
                                   effects := effects (hass w1)
                                              ++ [SetUpdatedData] |} |})
    by (unfold w2; destruct w1 as [c [n ts nh es]]; reflexivity).
  change ((get_self w2).1) with (self w2).
  assert (Hself : self w2 = self w1) by now rewrite Hw2.
  rewrite Hself, Hdev. unfold button_presses.
  destruct (get_device_product_info (_device (self w))) as [info|];
    [destruct (fingerbot info) as [fb|];
     [destruct (manual_control fb =? 0)%Z|]|]; cbn [negb];
    rewrite ?scan_world; rewrite Hw2; cbn;
    rewrite <- ?app_assoc; reflexivity.
Qed.

End CoordinatorFacts.

Section LoopFacts.
Context `{Consts}.

Implicit Types (w : World) (k : Handle) (t : Timer).

Lemma elapse_idle w dt : pending w = [] → exec (elapse dt) w = advanced dt w.
Proof.
  destruct w as [c [n ts nh es]]. unfold pending. cbn. intros ->.
  reflexivity.
Qed.

Lemma elapse_wait w t dt :
  pending w = [t] → now (hass w) + dt < due t →
  exec (elapse dt) w = advanced dt w.
Proof.
  destruct w as [c [n ts nh es]]. unfold pending. cbn. intros -> Hlt.
  run_loop. unfold next_due.
  rewrite filter_cons, decide_False by (cbn; lia). reflexivity.
Qed.

Lemma elapse_fire w t dt :
  pending w = [t] → due t ≤ now (hass w) + dt →
  exec (elapse dt) w
  = {| self := {| _device := _device (self w);
                  _disconnected := true;
                  _unsub_disconnect := None |};
       hass := {| now := now (hass w) + dt;
                  timers := [];
                  next_handle := next_handle (hass w);
                  effects := effects (hass w)
                             ++ [Fired (handle t); UpdateListeners] |} |}.
Proof.
  destruct w as [[dev d u] [n ts nh es]]. unfold pending. cbn. intros -> Hle.
  destruct t as [k due_t []]. cbn in Hle.
  run_loop. unfold next_due.
  rewrite filter_cons, decide_True by (cbn; lia).
  rewrite filter_nil. cbn [earliest]. cbv beta iota.
  rewrite filter_cons, decide_False by (intros Hne; now apply Hne).
  rewrite filter_nil. run_loop.
  rewrite <- ?app_assoc. reflexivity.
Qed.

End LoopFacts.

Section Invariant.
Context `{Consts}.

Implicit Types (w : World) (k : Handle) (t : Timer) (s : Signal).

Lemma filter_own_handle t :
  filter (fun t' => handle t' ≠ handle t) [t] = [].
Proof.
  rewrite filter_cons, decide_False by (intros Hne; now apply Hne).
  apply filter_nil.
Qed.

Lemma timer_inv_init (h : HomeAssistant) device :
  timers h = [] → timer_inv (init h device).
Proof. intros Hnil. left. exact Hnil. Qed.

Lemma timer_inv_connect w :
  timer_inv w → pending (exec _async_handle_connect w) = [].
Proof.
  unfold pending. rewrite connect_hass. cbn.
  intros [Hnil|(t & Hone & Hunsub)].
  - unfold pending in Hnil. rewrite Hnil.
    destruct (_unsub_disconnect (self w)); reflexivity.
  - unfold pending in Hone. rewrite Hone, Hunsub. apply filter_own_handle.
Qed.

Lemma timer_inv_disconnect w :
  timer_inv w → timer_inv (exec _async_handle_disconnect w).
Proof.
  intros Hinv.
  destruct (_unsub_disconnect (self w)) as [k|] eqn:Hunsub.
  - now rewrite (disconnect_held w k).
  - rewrite disconnect_idle by exact Hunsub.
    destruct Hinv as [Hnil|(t & _ & Hsome)]; [|congruence].
    right. unfold pending in *. cbn. rewrite Hnil. eexists. split; reflexivity.
Qed.

Lemma timer_inv_elapse w dt : timer_inv w → timer_inv (exec (elapse dt) w).
Proof.
  intros [Hnil|(t & Hone & Hunsub)].
  - rewrite elapse_idle by exact Hnil. left. exact Hnil.
  - destruct (decide (due t ≤ now (hass w) + dt)) as [Hle|Hgt].
    + rewrite (elapse_fire w t) by assumption. left. reflexivity.
    + rewrite (elapse_wait w t) by (assumption || lia).
      right. exists t. split; assumption.
Qed.

Lemma timer_inv_deliver w s : timer_inv w → timer_inv (exec (deliver s) w).
Proof.
  intros Hinv. destruct s as [|updates| |dt]; cbn [deliver].
  - left. now apply timer_inv_connect.
  - left. unfold pending. rewrite update_world. cbn.
    now apply timer_inv_connect.
  - now apply timer_inv_disconnect.
  - now apply timer_inv_elapse.
Qed.

Lemma timer_inv_run (sigs : list Signal) w :
  timer_inv w → timer_inv (run sigs w).
Proof.
  revert w. induction sigs as [|s sigs IH]; intros w Hinv; cbn [run].
  - exact Hinv.
  - apply IH, timer_inv_deliver, Hinv.
Qed.

(** At most one delayed call is pending in every state a coordinator
    reaches. *)
Lemma at_most_one_pending (h : HomeAssistant) device (sigs : list Signal) :
  timers h = [] → length (pending (run sigs (init h device))) ≤ 1.
Proof.
  intros Hnil.
  destruct (timer_inv_run sigs _ (timer_inv_init h device Hnil))
    as [Hp|(t & Hp & _)]; rewrite Hp; cbn; lia.
Qed.

Lemma run_app (sigs1 sigs2 : list Signal) w :
  run (sigs1 ++ sigs2) w = run sigs2 (run sigs1 w).
Proof.
  revert w. induction sigs1 as [|s sigs1 IH]; intros w; cbn; [reflexivity|].
  apply IH.
Qed.

(** *** Effects are only ever appended *)

Lemma emitted_app w w' (es : list Effect) :
  effects (hass w') = effects (hass w) ++ es → emitted w w' = es.
Proof. intros Heq. unfold emitted. rewrite Heq. apply drop_app_length. Qed.

Lemma deliver_effects s w :
  ∃ es, effects (hass (exec (deliver s) w)) = effects (hass w) ++ es.
Proof.
  destruct s as [|updates| |dt]; cbn [deliver].
  - rewrite connect_hass. cbn. eauto.
  - rewrite update_world, connect_hass. cbn. rewrite <- app_assoc. eauto.
  - destruct (_unsub_disconnect (self w)) as [k|] eqn:Hunsub.
    + rewrite (disconnect_held w k) by exact Hunsub. exists [].
      now rewrite app_nil_r.
    + rewrite disconnect_idle by exact Hunsub. cbn. eauto.
  - (* the loop: by induction on the rounds *)
    assert (Hdue : ∀ fuel target w0,
               ∃ es, effects (hass (exec (run_due fuel target) w0))
                     = effects (hass w0) ++ es).
    { induction fuel as [|fuel IH]; intros target w0.
      - exists []. cbn. now rewrite app_nil_r.
      - cbn [run_due]. rewrite exec_bind.
        change (exec get_hass w0) with w0.
        change ((get_hass w0).1) with (hass w0).
        destruct (next_due target (timers (hass w0))) as [t|].
        + rewrite exec_bind.
          destruct (IH target (exec (fire t) w0)) as [es Hes].
          rewrite Hes.
          assert (Hfire : effects (hass (exec (fire t) w0))
                          = effects (hass w0)
                            ++ [Fired (handle t); UpdateListeners]).
          { destruct w0 as [[dev d u] [n ts nh es0]], t as [k due_t []].
            run_loop. now rewrite <- app_assoc. }
          rewrite Hfire, <- app_assoc. eauto.
        + exists []. cbn. now rewrite app_nil_r. }
    unfold elapse. rewrite !exec_bind.
    change (exec get_hass w) with w.
    change ((get_hass w).1) with (hass w).
    destruct (Hdue (length (timers (hass w))) (now (hass w) + dt) w)
      as [es Hes].
    exists es. rewrite <- Hes.
    now destruct (exec (run_due _ _) w) as [c [n ts nh es1]].
Qed.

Lemma run_effects (sigs : list Signal) w :
  ∃ es, effects (hass (run sigs w)) = effects (hass w) ++ es.
Proof.
  revert w. induction sigs as [|s sigs IH]; intros w; cbn [run].
  - exists []. now rewrite app_nil_r.
  - destruct (IH (exec (deliver s) w)) as [es2 H2].
    destruct (deliver_effects s w) as [es1 H1].
    exists (es1 ++ es2). now rewrite H2, H1, app_assoc.
Qed.

End Invariant.

Section Counting.
Context `{Consts}.

Implicit Types (w : World) (k : Handle) (t : Timer) (s : Signal).

Lemma fire_count_app (es1 es2 : list Effect) :
  fire_count (es1 ++ es2) = fire_count es1 + fire_count es2.
Proof. unfold fire_count. now rewrite List.filter_app, length_app. Qed.

Lemma listener_updates_app (es1 es2 : list Effect) :
  listener_updates (es1 ++ es2) = listener_updates es1 + listener_updates es2.
Proof. apply count_occ_app. Qed.

Lemma set_data_calls_app (es1 es2 : list Effect) :
  set_data_calls (es1 ++ es2) = set_data_calls es1 + set_data_calls es2.
Proof. apply count_occ_app. Qed.

Lemma observer_notifications_app n (es1 es2 : list Effect) :
  observer_notifications n (es1 ++ es2)
  = observer_notifications n es1 + observer_notifications n es2.
Proof.
  unfold observer_notifications.
  rewrite listener_updates_app, set_data_calls_app. lia.
Qed.

(** Button events are bus events only: they count as no callback run and
    as no observer notification. *)
Lemma button_presses_bus device (updates : list TuyaBLEDataPoint) :
  Forall (fun e => e = button_event device) (button_presses device updates).
Proof.
  unfold button_presses.
  destruct (get_device_product_info device) as [info|]; [|constructor].
  destruct (fingerbot info) as [fb|]; [|constructor].
  destruct (manual_control fb =? 0)%Z; [constructor|].
  induction (List.filter (is_button_press fb) updates); constructor; auto.
Qed.

Lemma bus_only_counts n (es : list Effect) device :
  Forall (fun e => e = button_event device) es →
  button_events es = es ∧ fire_count es = 0
  ∧ observer_notifications n es = 0.
Proof.
  unfold observer_notifications, listener_updates, set_data_calls, fire_count,
    button_events.
  induction 1 as [|e es -> _ (IHb & IHf & IHn)]; cbn.
  - repeat split. lia.
  - rewrite IHb. repeat split; [exact IHf|]. exact IHn.
Qed.

Lemma button_presses_counts n device (updates : list TuyaBLEDataPoint) :
  button_events (button_presses device updates)
  = button_presses device updates
  ∧ fire_count (button_presses device updates) = 0
  ∧ observer_notifications n (button_presses device updates) = 0.
Proof. eapply bus_only_counts, button_presses_bus. Qed.

End Counting.

Section Claims.
Context `{Consts}.

Implicit Types (w : World) (k : Handle) (t : Timer) (s : Signal).

(** *** Connecting *)

Lemma connect_emitted w :
  emitted w (exec _async_handle_connect w) = connect_effects w.
Proof. apply emitted_app. now rewrite connect_hass. Qed.

(** [_async_handle_connect] cancels the stored call but keeps the stored
    unsubscribe as it was. *)
Lemma connect_keeps_unsub w :
  _unsub_disconnect (self (exec _async_handle_connect w))
  = _unsub_disconnect (self w).
Proof. now rewrite connect_self. Qed.

Lemma connect_notifications n w :
  observer_notifications n (connect_effects w)
  = if _disconnected (self w) then 1 else 0.
Proof.
  unfold connect_effects.
  destruct (_unsub_disconnect (self w)), (_disconnected (self w));
    cbn; lia.
Qed.

(** C7, as amended.  Two [_async_handle_connect] calls in a row notify
    the observers once when the coordinator was disconnected and not at
    all when it was already connected; the second call never notifies
    and leaves the coordinator's fields as the first call left them. *)
Theorem connect_twice_notifies_once_if_disconnected w (n : nat) :
  let w1 := exec _async_handle_connect w in
  let w2 := exec _async_handle_connect w1 in
  observer_notifications n (emitted w w2)
  = (if _disconnected (self w) then 1 else 0)
  ∧ observer_notifications n (emitted w w1)
    = (if _disconnected (self w) then 1 else 0)
  ∧ observer_notifications n (emitted w1 w2) = 0
  ∧ _disconnected (self w1) = false
  ∧ self w2 = self w1.
Proof.
  intros w1 w2.
  assert (H1 : _disconnected (self w1) = false)
    by (unfold w1; now rewrite connect_self).
  assert (H12 : emitted w1 w2 = connect_effects w1)
    by apply connect_emitted.
  assert (H01 : emitted w w1 = connect_effects w) by apply connect_emitted.
  assert (N12 : observer_notifications n (connect_effects w1) = 0)
    by (rewrite connect_notifications; now rewrite H1).
  assert (H02 : emitted w w2 = connect_effects w ++ connect_effects w1).
  { apply emitted_app. unfold w2. rewrite connect_hass. cbn.
    fold (connect_effects w1). unfold w1 at 1. rewrite connect_hass. cbn.
    fold (connect_effects w). now rewrite <- app_assoc. }
  repeat split.
  - rewrite H02, observer_notifications_app, N12, connect_notifications. lia.
  - rewrite H01. apply connect_notifications.
  - now rewrite H12.
  - exact H1.
  - unfold w2. rewrite connect_self. unfold w1. rewrite connect_self.
    reflexivity.
Qed.

(** *** Data updates *)

Lemma update_emitted (updates : list TuyaBLEDataPoint) w :
  emitted w (exec (_async_handle_update updates) w)
  = connect_effects w
    ++ SetUpdatedData :: button_presses (_device (self w)) updates.
Proof.
  apply emitted_app. rewrite update_world, connect_hass. cbn.
  fold (connect_effects w). now rewrite <- app_assoc.
Qed.

(** C3, as amended.  A data update on a disconnected coordinator makes
    it connected; during the call the coordinator broadcasts to its
    listeners once itself (the connect step) and calls the host's
    [async_set_updated_data] once, so the observers are notified once
    plus whatever that host call notifies; the scan of the batch adds
    button events only and no observer notification. *)
Theorem update_when_disconnected (updates : list TuyaBLEDataPoint) w (n : nat) :
  _disconnected (self w) = true →
  let w' := exec (_async_handle_update updates) w in
  _disconnected (self w') = false
  ∧ connected w' = true
  ∧ listener_updates (emitted w w') = 1
  ∧ set_data_calls (emitted w w') = 1
  ∧ observer_notifications n (emitted w w') = 1 + n
  ∧ observer_notifications n (button_presses (_device (self w)) updates) = 0.
Proof.
  intros Hdis w'.
  assert (Hflag : _disconnected (self w') = false)
    by (unfold w'; rewrite update_world; cbn; now rewrite connect_self).
  pose proof (button_presses_counts n (_device (self w)) updates)
    as (_ & _ & Hscan).
  pose proof (button_presses_counts 0 (_device (self w)) updates)
    as (_ & _ & Hscan0).
  pose proof (button_presses_counts 1 (_device (self w)) updates)
    as (_ & _ & Hscan1).
  assert (Hnotif : ∀ m, observer_notifications m (emitted w w') =
                        1 + m + observer_notifications m
                                  (button_presses (_device (self w)) updates)).
  { intros m. unfold w'. rewrite update_emitted.
    rewrite observer_notifications_app, connect_notifications, Hdis.
    change (SetUpdatedData :: ?l) with ([SetUpdatedData] ++ l).
    rewrite observer_notifications_app. cbn. lia. }
  repeat split.
  - exact Hflag.
  - unfold connected. now rewrite Hflag.
  - specialize (Hnotif 0). unfold observer_notifications in Hnotif, Hscan0.
    lia.
  - pose proof (Hnotif 0) as H0. pose proof (Hnotif 1) as H1.
    unfold observer_notifications in H0, H1, Hscan0, Hscan1. lia.
  - rewrite Hnotif, Hscan. lia.
  - exact Hscan.
Qed.

(** C6.  The button events of one [_async_handle_update] are exactly one
    event, carrying the device's address and id, per record of the batch
    whose id is the Fingerbot switch id and whose [changed_by_device] is
    set, in order and without de-duplication, when the product has a
    Fingerbot descriptor with a nonzero [manual_control]; there is none
    when [manual_control] is zero, when the product has no Fingerbot
    descriptor, or when the product is unknown. *)
Theorem button_events_of_update (updates : list TuyaBLEDataPoint) w :
  let device := _device (self w) in
  let events :=
    button_events (emitted w (exec (_async_handle_update updates) w)) in
  (∀ info fb,
      get_device_product_info device = Some info →
      fingerbot info = Some fb →
      manual_control fb ≠ 0%Z →
      events
      = map (fun _ => BusFire FINGERBOT_BUTTON_EVENT
                        (address device) (device_id device))
          (List.filter
             (fun update =>
                (dp_id update =? switch fb)%Z && changed_by_device update)
             updates))
  ∧ (∀ info fb,
      get_device_product_info device = Some info →
      fingerbot info = Some fb →
      manual_control fb = 0%Z →
      events = [])
  ∧ (∀ info,
      get_device_product_info device = Some info →
      fingerbot info = None →
      events = [])
  ∧ (get_device_product_info device = None → events = []).
Proof.
  intros device events.
  assert (Hev : events = button_presses device updates).
  { unfold events. rewrite update_emitted. unfold button_events.
    rewrite List.filter_app. cbn [List.filter is_bus_fire].
    pose proof (button_presses_counts 0 device updates) as (Hb & _ & _).
    unfold button_events in Hb. fold device. rewrite Hb.
    unfold connect_effects.
    destruct (_unsub_disconnect (self w)), (_disconnected (self w));
      reflexivity. }
  rewrite Hev. unfold button_presses. repeat split.
  - intros info fb -> -> Hmc.
    apply Z.eqb_neq in Hmc. rewrite Hmc. reflexivity.
  - intros info fb -> -> Hmc. now rewrite Hmc.
  - intros info -> ->. reflexivity.
  - intros ->. reflexivity.
Qed.

End Claims.

Section Debounce.
Context `{Consts}.

Implicit Types (w : World) (k : Handle) (t : Timer) (s : Signal).

(** *** A stored unsubscribe with nothing pending

    Once the coordinator holds an unsubscribe whose call is no longer
    pending, no signal changes that: [_async_handle_disconnect] schedules
    nothing, so no delayed callback runs and the coordinator, once
    connected, stays connected. *)
Lemma held_step s w k :
  pending w = [] → _unsub_disconnect (self w) = Some k →
  let w' := exec (deliver s) w in
  pending w' = [] ∧ _unsub_disconnect (self w') = Some k
  ∧ fire_count (emitted w w') = 0
  ∧ (_disconnected (self w) = false → _disconnected (self w') = false).
Proof.
  intros Hp Hunsub w'. pose proof Hp as Hnil. unfold pending in Hnil.
  destruct s as [|updates| |dt]; unfold w'; cbn [deliver].
  - rewrite connect_emitted. unfold pending.
    rewrite connect_self, connect_hass. cbn. rewrite Hunsub, Hnil.
    repeat split. unfold connect_effects. rewrite Hunsub.
    destruct (_disconnected (self w)); reflexivity.
  - rewrite update_emitted. unfold pending. rewrite update_world. cbn.
    rewrite connect_self, connect_hass. cbn. rewrite Hunsub, Hnil.
    repeat split. rewrite fire_count_app.
    change (SetUpdatedData :: ?l) with ([SetUpdatedData] ++ l).
    rewrite fire_count_app.
    pose proof (button_presses_counts 0 (_device (self w)) updates)
      as (_ & -> & _).
    unfold connect_effects. rewrite Hunsub.
    destruct (_disconnected (self w)); reflexivity.
  - rewrite (disconnect_held w k) by exact Hunsub.
    repeat split; auto.
    rewrite (emitted_app w w []); [reflexivity | now rewrite app_nil_r].
  - rewrite elapse_idle by exact Hp.
    repeat split; auto.
    rewrite (emitted_app w _ []); [reflexivity | cbn; now rewrite app_nil_r].
Qed.

Lemma emitted_trans w1 w2 w3 :
  (∃ es, effects (hass w2) = effects (hass w1) ++ es) →
  (∃ es, effects (hass w3) = effects (hass w2) ++ es) →
  emitted w1 w3 = emitted w1 w2 ++ emitted w2 w3.
Proof.
  intros [es1 H1] [es2 H2].
  rewrite (emitted_app w1 w2 es1), (emitted_app w2 w3 es2) by assumption.
  apply emitted_app. now rewrite H2, H1, app_assoc.
Qed.

Lemma held_forever (sigs : list Signal) w k :
  pending w = [] → _unsub_disconnect (self w) = Some k →
  let w' := run sigs w in
  pending w' = [] ∧ _unsub_disconnect (self w') = Some k
  ∧ fire_count (emitted w w') = 0
  ∧ (_disconnected (self w) = false → _disconnected (self w') = false).
Proof.
  revert w. induction sigs as [|s sigs IH]; intros w Hnil Hunsub; cbn [run].
  - repeat split; auto.
    rewrite (emitted_app w w []); [reflexivity | now rewrite app_nil_r].
  - destruct (held_step s w k Hnil Hunsub) as (Hnil1 & Hunsub1 & Hf1 & Hd1).
    destruct (IH _ Hnil1 Hunsub1) as (Hnil2 & Hunsub2 & Hf2 & Hd2).
    repeat split; try assumption.
    + rewrite (emitted_trans w (exec (deliver s) w)).
      * rewrite fire_count_app. cbv zeta in Hf1, Hf2. lia.
      * apply deliver_effects.
      * apply run_effects.
    + intros Hd. apply Hd2, Hd1, Hd.
Qed.

(** *** Disconnect, then connect before the countdown runs out *)

(** A disconnect signal that starts the countdown leaves the whole
    delay to go. *)
Lemma disconnect_starts_countdown w dt :
  timer_inv w → _unsub_disconnect (self w) = None →
  dt < SET_DISCONNECTED_DELAY →
  before_due dt (exec _async_handle_disconnect w).
Proof.
  intros [Hnil|(t & _ & Hsome)] Hunsub Hlt; [|congruence].
  rewrite disconnect_idle by exact Hunsub.
  unfold before_due, pending in *. cbn. rewrite Hnil. cbn.
  intros t Hin. apply list_elem_of_singleton in Hin. subst t. cbn. lia.
Qed.

Lemma elapse_before_due w dt :
  timer_inv w → before_due dt w → exec (elapse dt) w = advanced dt w.
Proof.
  intros [Hnil|(t & Hone & _)] Hbefore.
  - now apply elapse_idle.
  - apply (elapse_wait w t); [exact Hone|].
    apply Hbefore. rewrite Hone. apply list_elem_of_singleton. reflexivity.
Qed.

Lemma disconnect_holds_unsub w :
  is_Some (_unsub_disconnect (self (exec _async_handle_disconnect w))).
Proof.
  destruct (_unsub_disconnect (self w)) as [k|] eqn:Hunsub.
  - rewrite (disconnect_held w k) by exact Hunsub. rewrite Hunsub. eauto.
  - rewrite disconnect_idle by exact Hunsub. cbn. eauto.
Qed.

Lemma disconnect_flag w :
  _disconnected (self (exec _async_handle_disconnect w))
  = _disconnected (self w).
Proof.
  destruct (_unsub_disconnect (self w)) as [k|] eqn:Hunsub.
  - now rewrite (disconnect_held w k).
  - now rewrite disconnect_idle.
Qed.

(** C4.  In every run in which a disconnect signal is followed by a
    connect signal before the pending countdown runs out, the connected
    flag does not change on the way (so it never turns false), the
    coordinator is connected after the connect signal, no delayed call
    is pending any more, and whatever signals follow, the delayed
    callback does not run and the coordinator stays connected. *)
Theorem debounce_cancellation (h : HomeAssistant) (device : TuyaBLEDevice)
    (before after : list Signal) (dt : nat) :
  timers h = [] →
  let w := run before (init h device) in
  let w1 := exec _async_handle_disconnect w in
  let w2 := exec (elapse dt) w1 in
  let w3 := exec _async_handle_connect w2 in
  before_due dt w1 →
  connected w1 = connected w
  ∧ connected w2 = connected w
  ∧ connected w3 = true
  ∧ pending w3 = []
  ∧ fire_count (emitted w w3) = 0
  ∧ fire_count (emitted w3 (run after w3)) = 0
  ∧ connected (run after w3) = true.
Proof.
  intros Hnil w w1 w2 w3 Hbefore.
  assert (Hinv : timer_inv w)
    by (apply timer_inv_run, timer_inv_init, Hnil).
  assert (Hinv1 : timer_inv w1) by now apply timer_inv_disconnect.
  assert (Hw2 : w2 = advanced dt w1) by now apply elapse_before_due.
  assert (Hinv2 : timer_inv w2) by now apply timer_inv_elapse.
  assert (Hself2 : self w2 = self w1) by now rewrite Hw2.
  assert (Hflag1 : _disconnected (self w1) = _disconnected (self w))
    by apply disconnect_flag.
  destruct (disconnect_holds_unsub w) as [k Hk]. fold w1 in Hk.
  assert (Hk3 : _unsub_disconnect (self w3) = Some k)
    by (unfold w3; now rewrite connect_keeps_unsub, Hself2).
  assert (Hp3 : pending w3 = []) by now apply timer_inv_connect.
  assert (Hd3 : _disconnected (self w3) = false)
    by (unfold w3; now rewrite connect_self).
  destruct (held_forever after w3 k Hp3 Hk3) as (_ & _ & Hfire & Hstay).
  assert (Hfire03 : fire_count (emitted w w3) = 0).
  { rewrite (emitted_trans w w1 w3).
    - rewrite fire_count_app.
      assert (E01 : fire_count (emitted w w1) = 0).
      { unfold w1.
        destruct (_unsub_disconnect (self w)) as [k0|] eqn:Hu.
        - rewrite (disconnect_held w k0) by exact Hu.
          rewrite (emitted_app w w []); [reflexivity | now rewrite app_nil_r].
        - rewrite disconnect_idle by exact Hu.
          erewrite emitted_app; [|cbn; reflexivity]. reflexivity. }
      assert (E13 : fire_count (emitted w1 w3) = 0).
      { rewrite (emitted_app w1 w3 (connect_effects w2)).
        - unfold connect_effects.
          destruct (_unsub_disconnect (self w2)), (_disconnected (self w2));
            reflexivity.
        - unfold w3. rewrite connect_hass. cbn. fold (connect_effects w2).
          now rewrite Hw2. }
      lia.
    - apply (deliver_effects Disconnected).
    - destruct (deliver_effects (Elapse dt) w1) as [es1 H1].
      destruct (deliver_effects Connected w2) as [es2 H2].
      exists (es1 ++ es2). cbn [deliver] in H1, H2. fold w2 in H1.
      fold w3 in H2. now rewrite H2, H1, app_assoc. }
  unfold connected. rewrite Hself2, Hflag1, Hd3.
  repeat split; try assumption.
  now rewrite (Hstay Hd3).
Qed.

(** *** Disconnect, then silence *)

(** After a disconnect followed by a connect, no later disconnect starts
    a countdown: whatever follows, nothing is pending, the delayed
    callback does not run and the coordinator stays connected. *)
Lemma no_countdown_after_reconnect (h : HomeAssistant)
    (device : TuyaBLEDevice) (before after : list Signal) :
  timers h = [] →
  let w := run (before ++ [Disconnected; Connected]) (init h device) in
  pending (run after w) = []
  ∧ fire_count (emitted w (run after w)) = 0
  ∧ connected (run after w) = true.
Proof.
  intros Hnil w.
  assert (Hw : w = exec _async_handle_connect
                     (exec _async_handle_disconnect
                        (run before (init h device))))
    by (unfold w; now rewrite run_app).
  set (w0 := run before (init h device)) in *.
  assert (Hinv : timer_inv w0) by (apply timer_inv_run, timer_inv_init, Hnil).
  destruct (disconnect_holds_unsub w0) as [k Hk].
  assert (Hk' : _unsub_disconnect (self w) = Some k)
    by (rewrite Hw; now rewrite connect_keeps_unsub).
  assert (Hp : pending w = [])
    by (rewrite Hw; now apply timer_inv_connect, timer_inv_disconnect).
  assert (Hd : _disconnected (self w) = false)
    by (rewrite Hw; now rewrite connect_self).
  destruct (held_forever after w k Hp Hk') as (Hp' & _ & Hf & Hstay).
  unfold connected. rewrite (Hstay Hd). repeat split; assumption.
Qed.


(** From a coordinator that holds no unsubscribe, a disconnect signal
    followed by the whole delay marks it disconnected: the callback runs
    once, clears the stored unsubscribe and notifies the observers
    once. *)
Lemma debounce_fires w dt (n : nat) :
  timer_inv w → _unsub_disconnect (self w) = None →
  SET_DISCONNECTED_DELAY ≤ dt →
  let w1 := exec _async_handle_disconnect w in
  let w2 := exec (elapse dt) w1 in
  _disconnected (self w2) = true
  ∧ _unsub_disconnect (self w2) = None
  ∧ pending w2 = []
  ∧ emitted w1 w2 = [Fired (next_handle (hass w)); UpdateListeners]
  ∧ observer_notifications n (emitted w1 w2) = 1
  ∧ connected w2 = false.
Proof.
  intros [Hnil|(t & _ & Hsome)] Hunsub Hle w1 w2; [|congruence].
  unfold pending in Hnil.
  set (t := {| handle := next_handle (hass w);
               due := now (hass w) + SET_DISCONNECTED_DELAY;
               action := SetDisconnected |}).
  assert (Hw1 : pending w1 = [t])
    by (unfold w1, pending; rewrite disconnect_idle by exact Hunsub;
        cbn; now rewrite Hnil).
  assert (Hnow : now (hass w1) = now (hass w))
    by (unfold w1; now rewrite disconnect_idle).
  assert (Hw2 : w2 = _) by (apply (elapse_fire w1 t dt Hw1); cbn; lia).
  assert (Hem : emitted w1 w2 = [Fired (next_handle (hass w)); UpdateListeners])
    by (apply emitted_app; now rewrite Hw2).
  unfold connected, pending. rewrite Hem, Hw2. cbn. repeat split. lia.
Qed.

(** *** A fresh coordinator *)

Lemma run_due_keeps_disconnected (fuel target : nat) w :
  _disconnected (self w) = true →
  _disconnected (self (exec (run_due fuel target) w)) = true.
Proof.
  revert w. induction fuel as [|fuel IH]; intros w Hdis; [exact Hdis|].
  cbn [run_due]. rewrite exec_bind.
  change (exec get_hass w) with w. change ((get_hass w).1) with (hass w).
  destruct (next_due target (timers (hass w))) as [t|]; [|exact Hdis].
  rewrite exec_bind. apply IH.
  destruct w as [[dev d u] [n0 ts nh es]], t as [k due_t []]. reflexivity.
Qed.

Lemma silent_keeps_disconnected s w :
  silent s → _disconnected (self w) = true →
  _disconnected (self (exec (deliver s) w)) = true.
Proof.
  destruct s as [|updates| |dt]; cbn [silent deliver]; try contradiction;
    intros _ Hdis.
  - now rewrite disconnect_flag.
  - unfold elapse. rewrite !exec_bind.
    change (exec get_hass w) with w. change ((get_hass w).1) with (hass w).
    pose proof (run_due_keeps_disconnected (length (timers (hass w)))
                  (now (hass w) + dt) w Hdis) as Hrun.
    now destruct (exec (run_due _ _) w) as [c [n0 ts nh es]].
Qed.

Lemma silent_run_keeps_disconnected (sigs : list Signal) w :
  Forall silent sigs → _disconnected (self w) = true →
  _disconnected (self (run sigs w)) = true.
Proof.
  revert w. induction sigs as [|s sigs IH]; intros w Hall Hdis; [exact Hdis|].
  inversion Hall as [|? ? Hs Hrest]; subst. cbn [run].
  apply IH; [exact Hrest|]. now apply silent_keeps_disconnected.
Qed.

(** C8.  A freshly constructed coordinator is disconnected and holds no
    unsubscribe, so [connected] and the entities' [available] are false;
    they stay false under any signals other than a connect or a data
    update, and each of those two makes them true. *)
Theorem fresh_coordinator_is_disconnected (h : HomeAssistant)
    (device : TuyaBLEDevice) :
  let w := init h device in
  _disconnected (self w) = true
  ∧ _unsub_disconnect (self w) = None
  ∧ connected w = false
  ∧ available w = false
  ∧ (∀ sigs : list Signal,
        Forall silent sigs →
        connected (run sigs w) = false ∧ available (run sigs w) = false)
  ∧ connected (exec _async_handle_connect w) = true
  ∧ (∀ updates, connected (exec (_async_handle_update updates) w) = true).
Proof.
  intros w.
  split; [reflexivity|]. split; [reflexivity|].
  split; [reflexivity|]. split; [reflexivity|].
  split; [|split].
  - intros sigs Hsilent. unfold available, connected.
    rewrite (silent_run_keeps_disconnected sigs w Hsilent eq_refl).
    split; reflexivity.
  - unfold connected. now rewrite connect_self.
  - intros updates. unfold connected. rewrite update_world. cbn.
    now rewrite connect_self.
Qed.

End Debounce.

(** ** Scenarios

    Concrete runs of a coordinator for [sample_device] on an empty loop,
    with the constants of [sample_consts]. *)
Section Scenarios.
Local Existing Instance sample_consts.

(** C1.  The run: a fresh coordinator receives a disconnect signal,
    then a connect signal.  The connect cancels the pending call, but
    the coordinator still holds the unsubscribe of that call
    afterwards. *)
Theorem connect_leaves_unsub_disconnect_set :
  let w := exec _async_handle_disconnect fresh in
  let w' := exec _async_handle_connect w in
  _unsub_disconnect (self w) = Some 0
  ∧ pending w = [{| handle := 0; due := 600; action := SetDisconnected |}]
  ∧ pending w' = []
  ∧ emitted w w' = [Cancel 0; UpdateListeners]
  ∧ _unsub_disconnect (self w') = Some 0
  ∧ _unsub_disconnect (self w') ≠ None.
Proof. vm_compute. repeat split. discriminate. Qed.

(** C2.  The run: disconnect, connect, a long pause, then two
    disconnect signals in a row.  The two last signals schedule nothing:
    no delayed call is pending after them, where one is expected. *)
Theorem disconnect_after_reconnect_schedules_nothing :
  let w := run [Disconnected; Connected; Elapse 5000] fresh in
  let w' := run [Disconnected; Disconnected] w in
  pending w = []
  ∧ connected w = true
  ∧ _unsub_disconnect (self w) = Some 0
  ∧ w' = w
  ∧ length (pending w') = 0.
Proof. vm_compute. repeat split. Qed.

(** C5.  The run: disconnect, connect, a long pause, disconnect, and
    then the whole delay and more passes in silence.  The delayed
    callback never runs and the coordinator still reports connected. *)
Theorem silence_after_reconnect_stays_connected :
  let w := run [Disconnected; Connected; Elapse 5000; Disconnected] fresh in
  let w' := exec (elapse (SET_DISCONNECTED_DELAY + 1)) w in
  pending w = []
  ∧ connected w' = true
  ∧ _disconnected (self w') = false
  ∧ emitted w w' = []
  ∧ fire_count (effects (hass w')) = 0.
Proof. vm_compute. repeat split. Qed.

(** C3, the claim as written fails: on a fresh coordinator a data
    update, even an empty one, notifies Home Assistant's observers
    twice, once through the connect step and once through
    [async_set_updated_data]. *)
Lemma update_notifies_twice :
  let w' := exec (_async_handle_update []) fresh in
  _disconnected (self fresh) = true
  ∧ emitted fresh w' = [UpdateListeners; SetUpdatedData]
  ∧ observer_notifications ha_set_data_broadcasts (emitted fresh w') = 2
  ∧ observer_notifications ha_set_data_broadcasts (emitted fresh w') ≠ 1.
Proof. vm_compute. repeat split. discriminate. Qed.

(** C7, the claim as written fails: on a coordinator that is already
    connected, two connect calls in a row notify nobody. *)
Lemma connect_twice_when_connected_is_silent :
  let w := exec _async_handle_connect fresh in
  let w2 := exec _async_handle_connect (exec _async_handle_connect w) in
  connected w = true
  ∧ emitted w w2 = []
  ∧ observer_notifications ha_set_data_broadcasts (emitted w w2) = 0
  ∧ observer_notifications ha_set_data_broadcasts (emitted w w2) ≠ 1.
Proof. vm_compute. repeat split. discriminate. Qed.

Lemma update_when_disconnected_witness :
  _disconnected (self fresh) = true
  ∧ let w' := exec (_async_handle_update [sample_update 2 true]) fresh in
    _disconnected (self w') = false
    ∧ connected w' = true
    ∧ listener_updates (emitted fresh w') = 1
    ∧ set_data_calls (emitted fresh w') = 1
    ∧ observer_notifications 1 (emitted fresh w') = 1 + 1
    ∧ observer_notifications 1
        (button_presses (_device (self fresh)) [sample_update 2 true]) = 0.
Proof.
  split; [reflexivity|].
  apply (update_when_disconnected [sample_update 2 true] fresh 1).
  reflexivity.
Defined.

Lemma debounce_cancellation_witness :
  let w := run [Connected] fresh in
  let w1 := exec _async_handle_disconnect w in
  let w2 := exec (elapse 599) w1 in
  let w3 := exec _async_handle_connect w2 in
  let after := [Disconnected; Elapse 1000; Disconnected] in
  connected w1 = connected w
  ∧ connected w2 = connected w
  ∧ connected w3 = true
  ∧ pending w3 = []
  ∧ fire_count (emitted w w3) = 0
  ∧ fire_count (emitted w3 (run after w3)) = 0
  ∧ connected (run after w3) = true.
Proof.
  apply (debounce_cancellation empty_loop sample_device [Connected]
           [Disconnected; Elapse 1000; Disconnected] 599).
  - reflexivity.
  - intros t Hin. vm_compute in Hin.
    apply list_elem_of_singleton in Hin. subst t. vm_compute. lia.
Defined.

Lemma button_events_of_update_witness :
  button_events
    (emitted fresh
       (exec (_async_handle_update
                [sample_update 2 true; sample_update 2 false;
                 sample_update 3 true; sample_update 2 true]) fresh))
  = [BusFire "fingerbot_button_pressed" "DC:23:4D:AA:BB:CC" "bf01";
     BusFire "fingerbot_button_pressed" "DC:23:4D:AA:BB:CC" "bf01"]
  ∧ button_events
      (emitted (init empty_loop plain_fingerbot)
         (exec (_async_handle_update [sample_update 2 true])
            (init empty_loop plain_fingerbot)))
    = [].
Proof.
  split.
  - destruct (button_events_of_update
                [sample_update 2 true; sample_update 2 false;
                 sample_update 3 true; sample_update 2 true] fresh)
      as (Hmanual & _).
    apply (Hmanual (product "Fingerbot Plus" (Some fingerbot_plus_dps))
             fingerbot_plus_dps).
    + vm_compute. reflexivity.
    + reflexivity.
    + vm_compute. discriminate.
  - destruct (button_events_of_update [sample_update 2 true]
                (init empty_loop plain_fingerbot))
      as (_ & Hzero & _).
    apply (Hzero (product "Fingerbot" (Some fingerbot_dps)) fingerbot_dps).
    + vm_compute. reflexivity.
    + reflexivity.
    + reflexivity.
Defined.

Lemma fresh_coordinator_is_disconnected_witness :
  connected (run [Disconnected; Elapse 1000; Disconnected] fresh) = false
  ∧ available (run [Disconnected; Elapse 1000; Disconnected] fresh) = false.
Proof.
  destruct (fresh_coordinator_is_disconnected empty_loop sample_device)
    as (_ & _ & _ & _ & Hsilent & _).
  apply Hsilent. repeat constructor.
Defined.

End Scenarios.

(** ** More on addresses *)
Module AddressFacts.
Import Str.

Lemma append_cons c s t :
  (String c s ++ t)%string = String c (s ++ t)%string.
Proof. reflexivity. Qed.

Lemma append_nil_r s : (s ++ EmptyString)%string = s.
Proof.
  induction s as [|c s IH]; [reflexivity|]. now rewrite append_cons, IH.
Qed.

Lemma append_assoc s t u : ((s ++ t) ++ u)%string = (s ++ t ++ u)%string.
Proof.
  induction s as [|c s IH]; [reflexivity|]. now rewrite !append_cons, IH.
Qed.

Lemma upper_char_not_lower c : ¬ lower_case (upper_char c).
Proof.
  unfold lower_case.
  destruct c as [[] [] [] [] [] [] [] []]; vm_compute; lia.
Qed.

Lemma upper_char_fixes c : ¬ lower_case c → upper_char c = c.
Proof.
  unfold lower_case, upper_char. intros Hnl.
  destruct (97 <=? nat_of_ascii c) eqn:H1; [|reflexivity].
  destruct (nat_of_ascii c <=? 122) eqn:H2; [|reflexivity].
  apply Nat.leb_le in H1, H2. exfalso. apply Hnl. split; assumption.
Qed.

Lemma upper_char_dash c : upper_char c = "-"%char → c = "-"%char.
Proof. destruct c as [[] [] [] [] [] [] [] []]; vm_compute; congruence. Qed.



(** Normalising a string of normal characters changes nothing. *)
Lemma full_address_of_normal s :
  normal_address s → get_full_address s = s.
Proof.
  unfold get_full_address, normal_address, chars.
  induction s as [|c s IH]; intros Hn; [reflexivity|]. simpl.
  destruct (Hn c (or_introl eq_refl)) as [Hdash Hup].
  destruct (Ascii.eqb_spec c "-"%char) as [->|_]; [contradiction|].
  rewrite upper_char_fixes by exact Hup.
  f_equal. apply IH. intros c' Hin. apply Hn. now right.
Qed.

Lemma full_address_normal address : normal_address (get_full_address address).
Proof.
  unfold normal_address, chars, get_full_address.
  induction address as [|c s IH]; simpl; [tauto|].
  intros c' [<-|Hin]; [|now apply IH]. split.
  - intros Hd. apply upper_char_dash in Hd.
    destruct (Ascii.eqb_spec c "-"%char) as [->|Hne]; [discriminate|].
    contradiction.
  - apply upper_char_not_lower.
Qed.

(** The groups of a split do not contain the separator. *)
Lemma split_groups_no_sep sep s g :
  In g (split sep s) → ¬ In sep (chars g).
Proof.
  unfold chars. revert g. induction s as [|c s IH]; simpl; intros g.
  - intros [<-|[]]. simpl. tauto.
  - destruct (Ascii.eqb_spec c sep) as [->|Hne].
    + intros [<-|Hin]; [simpl; tauto | now apply IH].
    + pose proof (StrFacts.split_nonempty sep s) as Hs.
      destruct (split sep s) as [|p ps]; [contradiction|].
      intros [<-|Hin].
      * simpl. intros [Heq|Hin]; [congruence|].
        apply (IH p); [now left | exact Hin].
      * apply IH. now right.
Qed.

(** The characters of the groups are characters of the string. *)
Lemma split_groups_chars sep s g c :
  In g (split sep s) → In c (chars g) → In c (chars s).
Proof.
  unfold chars. revert g. induction s as [|d s IH]; simpl; intros g.
  - intros [<-|[]]. simpl. tauto.
  - destruct (Ascii.eqb_spec d sep) as [->|Hne].
    + intros [<-|Hin] Hc; [simpl in Hc; tauto|]. right. eapply IH; eauto.
    + pose proof (StrFacts.split_nonempty sep s) as Hs.
      destruct (split sep s) as [|p ps]; [contradiction|].
      intros [<-|Hin] Hc.
      * simpl in Hc. destruct Hc as [Heq|Hc]; [now left|].
        right. apply (IH p); [now left | exact Hc].
      * right. apply (IH g); [now right | exact Hc].
Qed.

Lemma chars_app s1 s2 : chars (s1 ++ s2)%string = (chars s1 ++ chars s2)%list.
Proof.
  unfold chars. induction s1; [reflexivity | simpl; congruence].
Qed.

Lemma join_cons sep g g' gs :
  join sep (g :: g' :: gs) = (g ++ sep ++ join sep (g' :: gs))%string.
Proof. reflexivity. Qed.

(** The characters of a join come from the groups or the separator. *)
Lemma join_chars sep gs c :
  In c (chars (join sep gs)) →
  In c (chars sep) ∨ ∃ g, In g gs ∧ In c (chars g).
Proof.
  induction gs as [|g gs IH]; [simpl; tauto|].
  destruct gs as [|g' gs].
  - simpl. intros Hc. right. exists g. tauto.
  - rewrite join_cons, !chars_app, !in_app_iff.
    intros [Hc|[Hc|Hc]].
    + right. exists g. split; [now left | exact Hc].
    + now left.
    + destruct (IH Hc) as [Hs|(g0 & Hg0 & Hc0)]; [now left|].
      right. exists g0. split; [now right | exact Hc0].
Qed.

(** Splitting a join of separator-free groups gives the groups back. *)
Lemma split_app_no_sep sep g s :
  ¬ In sep (chars g) →
  split sep (g ++ String sep s)%string = g :: split sep s.
Proof.
  unfold chars. induction g as [|c g IH]; simpl; intros Hno.
  - now rewrite Ascii.eqb_refl.
  - destruct (Ascii.eqb_spec c sep) as [->|Hne]; [tauto|].
    rewrite IH by tauto. reflexivity.
Qed.

Lemma split_join sep gs :
  gs ≠ [] → (∀ g, In g gs → ¬ In sep (chars g)) →
  split sep (join (String sep EmptyString) gs) = gs.
Proof.
  induction gs as [|g gs IH]; [congruence|]. intros _ Hno.
  destruct gs as [|g' gs].
  - simpl. apply StrFacts.split_no_sep. intros c Hc ->.
    apply (Hno g); [now left | exact Hc].
  - rewrite join_cons.
    change (String sep EmptyString ++ ?s)%string with (String sep s).
    rewrite split_app_no_sep by (apply Hno; now left).
    f_equal. apply IH; [discriminate|]. intros g0 Hg0. apply Hno. now right.
Qed.

Lemma last_n_In {A} n (xs : list A) x : In x (last_n n xs) → In x xs.
Proof.
  unfold last_n. intros Hin. apply list_elem_of_In.
  apply list_elem_of_In in Hin. eapply subseteq_drop, Hin.
Qed.

Lemma last_n_length {A} n (xs : list A) :
  length (last_n n xs) = Nat.min n (length xs).
Proof. unfold last_n. rewrite length_skipn. lia. Qed.

Lemma last_n_nonempty {A} n (xs : list A) :
  0 < n → xs ≠ [] → last_n n xs ≠ [].
Proof.
  intros Hn Hxs Hnil. apply (f_equal (@length A)) in Hnil.
  rewrite last_n_length in Hnil. destruct xs; [congruence|]. simpl in Hnil. lia.
Qed.

(** A join of the last groups is the tail end of the join of all. *)
Lemma join_drop_suffix sep (k : nat) gs :
  ∃ pre, join sep gs = (pre ++ join sep (drop k gs))%string.
Proof.
  revert gs. induction k as [|k IH]; intros gs.
  - exists EmptyString. now rewrite drop_0.
  - destruct gs as [|g gs]; [exists EmptyString; reflexivity|].
    cbn [drop]. destruct (IH gs) as [pre Hpre].
    destruct gs as [|g' gs].
    + exists g. rewrite drop_nil. simpl. now rewrite append_nil_r.
    + exists (g ++ sep ++ pre)%string. rewrite join_cons, Hpre.
      now rewrite !append_assoc.
Qed.

End AddressFacts.



Lemma short_address_parts (address : string) :
  let parts := Str.split ":" (get_full_address address) in
  Str.split ":" (get_short_address address) = Str.last_n 3 parts.
Proof.
  intros parts. unfold get_short_address. fold parts.
  apply AddressFacts.split_join.
  - apply AddressFacts.last_n_nonempty; [lia|].
    apply StrFacts.split_nonempty.
  - intros g Hg. apply AddressFacts.last_n_In in Hg.
    eapply AddressFacts.split_groups_no_sep, Hg.
Qed.

Lemma short_address_normal (address : string) :
  normal_address (get_short_address address).
Proof.
  intros c Hc. unfold get_short_address in Hc.
  apply AddressFacts.join_chars in Hc as [Hsep|(g & Hg & Hc)].
  - destruct Hsep as [<-|[]]. split; [discriminate|].
    unfold lower_case. vm_compute. lia.
  - apply AddressFacts.last_n_In in Hg.
    apply (AddressFacts.full_address_normal address).
    eapply AddressFacts.split_groups_chars; eassumption.
Qed.

(** X2.  The colon-separated groups of the short address are exactly
    the last three groups of the full address, or all of them when
    there are fewer: between one and three groups, never more. *)
Theorem get_short_address_groups (address : string) :
  let parts := Str.split ":" (get_full_address address) in
  let short_parts := Str.split ":" (get_short_address address) in
  short_parts = drop (length parts - 3) parts
  ∧ length short_parts = Nat.min 3 (length parts)
  ∧ 1 ≤ length short_parts ≤ 3.
Proof.
  intros parts short_parts.
  assert (Hsp : short_parts = Str.last_n 3 parts)
    by apply short_address_parts.
  assert (Hlen : length short_parts = Nat.min 3 (length parts))
    by (rewrite Hsp; apply AddressFacts.last_n_length).
  pose proof (StrFacts.split_nonempty ":" (get_full_address address)) as Hne.
  fold parts in Hne.
  split; [exact Hsp|]. split; [exact Hlen|].
  clearbody parts short_parts.
  assert (1 ≤ length parts) by (destruct parts; [congruence | simpl; lia]).
  lia.
Qed.

(** X3.  Shortening absorbs normalisation and is idempotent: the short
    address is itself in normal form, shortening the full address or
    the short address again gives the same short address. *)
Theorem get_short_address_idempotent (address : string) :
  get_full_address (get_short_address address) = get_short_address address
  ∧ get_short_address (get_full_address address) = get_short_address address
  ∧ get_short_address (get_short_address address)
    = get_short_address address.
Proof.
  assert (Hfull : get_full_address (get_short_address address)
                  = get_short_address address)
    by apply AddressFacts.full_address_of_normal, short_address_normal.
  split; [exact Hfull|]. split.
  - unfold get_short_address at 1.
    replace (get_full_address (get_full_address address))
      with (get_full_address address); [reflexivity|].
    symmetry. apply AddressFacts.full_address_of_normal,
      AddressFacts.full_address_normal.
  - unfold get_short_address at 1. rewrite Hfull, short_address_parts.
    rewrite (StrFacts.last_n_short 3 (Str.last_n 3 _)).
    + reflexivity.
    + rewrite AddressFacts.last_n_length. lia.
Qed.

(** X4.  The short address is the tail end of the full address. *)
Theorem get_short_address_suffix (address : string) :
  ∃ pre : string,
    get_full_address address = (pre ++ get_short_address address)%string.
Proof.
  unfold get_short_address, Str.last_n.
  set (parts := Str.split ":" (get_full_address address)).
  destruct (AddressFacts.join_drop_suffix ":" (length parts - 3) parts)
    as [pre Hpre].
  exists pre. rewrite <- Hpre. symmetry. apply StrFacts.join_split.
Qed.

(** ** More on the coordinator *)
Section CoordinatorRuns.
Context `{Consts}.

Implicit Types (w : World) (k : Handle) (t : Timer) (s : Signal).

Lemma countdown_inv_init (h : HomeAssistant) device :
  timers h = [] → countdown_inv (init h device).
Proof.
  intros Hnil. split; [now apply timer_inv_init|].
  unfold pending. cbn. rewrite Hnil. intros t Hin.
  now apply elem_of_nil in Hin.
Qed.

Lemma countdown_inv_of_empty w :
  timer_inv w → pending w = [] → countdown_inv w.
Proof.
  intros Hinv Hnil. split; [exact Hinv|]. rewrite Hnil. intros t Hin.
  now apply elem_of_nil in Hin.
Qed.

Lemma update_pending (updates : list TuyaBLEDataPoint) w :
  pending (exec (_async_handle_update updates) w)
  = pending (exec _async_handle_connect w).
Proof. unfold pending. now rewrite update_world. Qed.

Lemma update_self (updates : list TuyaBLEDataPoint) w :
  self (exec (_async_handle_update updates) w)
  = self (exec _async_handle_connect w).
Proof. now rewrite update_world. Qed.

Lemma countdown_inv_deliver s w :
  countdown_inv w → countdown_inv (exec (deliver s) w).
Proof.
  intros [Hinv Hok].
  pose proof (timer_inv_deliver w s Hinv) as Hinv'.
  destruct s as [|updates| |dt]; cbn [deliver] in *.
  - apply countdown_inv_of_empty; [exact Hinv'|].
    now apply timer_inv_connect.
  - apply countdown_inv_of_empty; [exact Hinv'|].
    rewrite update_pending. now apply timer_inv_connect.
  - destruct (_unsub_disconnect (self w)) as [k|] eqn:Hunsub.
    + rewrite (disconnect_held w k) by exact Hunsub. now split.
    + split; [exact Hinv'|].
      rewrite disconnect_idle by exact Hunsub.
      destruct Hinv as [Hnil|(t & _ & Hsome)]; [|congruence].
      unfold pending in *. cbn. rewrite Hnil. cbn.
      intros t Hin. apply list_elem_of_singleton in Hin. subst t.
      unfold countdown_ok. cbn. repeat split; lia.
  - destruct Hinv as [Hnil|(t & Hone & Hunsub)].
    + apply countdown_inv_of_empty; [exact Hinv'|].
      rewrite elapse_idle by exact Hnil. exact Hnil.
    + destruct (decide (due t ≤ now (hass w) + dt)) as [Hle|Hgt].
      * apply countdown_inv_of_empty; [exact Hinv'|].
        now rewrite (elapse_fire w t) by assumption.
      * split; [exact Hinv'|].
        rewrite (elapse_wait w t) by (assumption || lia).
        unfold pending in *. cbn. rewrite Hone.
        intros t' Hin. apply list_elem_of_singleton in Hin. subst t'.
        destruct (Hok t) as (Hs & Hdue & Hh);
          [rewrite Hone; now apply list_elem_of_singleton|].
        unfold countdown_ok. cbn. repeat split; (assumption || lia).
Qed.

Lemma countdown_inv_run (sigs : list Signal) w :
  countdown_inv w → countdown_inv (run sigs w).
Proof.
  revert w. induction sigs as [|s sigs IH]; intros w Hinv; cbn [run].
  - exact Hinv.
  - apply IH, countdown_inv_deliver, Hinv.
Qed.

(** X5.  In every state a coordinator reaches, at most one delayed call
    is pending; when one is, it is the one whose unsubscribe the
    coordinator holds, it is not overdue, and it is due no later than
    [SET_DISCONNECTED_DELAY] from now. *)
Theorem reachable_countdown (h : HomeAssistant) (device : TuyaBLEDevice)
    (sigs : list Signal) :
  timers h = [] →
  let w := run sigs (init h device) in
  length (pending w) ≤ 1
  ∧ ∀ t, t ∈ pending w →
      _unsub_disconnect (self w) = Some (handle t)
      ∧ now (hass w) ≤ due t ≤ now (hass w) + SET_DISCONNECTED_DELAY
      ∧ handle t < next_handle (hass w).
Proof.
  intros Hnil w.
  destruct (countdown_inv_run sigs _ (countdown_inv_init h device Hnil))
    as [Hinv Hok].
  fold w in Hinv, Hok. split; [|exact Hok].
  destruct Hinv as [Hp|(t & Hp & _)]; rewrite Hp; cbn; lia.
Qed.

(** X6.  A disconnect signal that follows another changes nothing: the
    countdown that is running is neither doubled nor postponed. *)
Theorem disconnect_twice_is_once w :
  exec _async_handle_disconnect (exec _async_handle_disconnect w)
  = exec _async_handle_disconnect w.
Proof.
  destruct (disconnect_holds_unsub w) as [k Hk].
  now apply (disconnect_held _ k).
Qed.

Lemma live_clears_pending s w :
  live s → timer_inv w →
  let w' := exec (deliver s) w in
  pending w' = []
  ∧ _unsub_disconnect (self w') = _unsub_disconnect (self w)
  ∧ _disconnected (self w') = false.
Proof.
  intros Hlive Hinv.
  destruct s as [|updates| |dt]; cbn [live deliver] in *; try contradiction.
  - repeat split; [now apply timer_inv_connect| |]; now rewrite connect_self.
  - rewrite update_pending, update_self.
    repeat split; [now apply timer_inv_connect| |]; now rewrite connect_self.
Qed.

(** X7.  Once a disconnect signal has been followed by a sign of life
    (a connect signal or a data update), the coordinator never reports
    disconnected again: whatever signals follow and however long the
    silence, no delayed call is pending or runs and [connected] stays
    true. *)
Theorem reconnect_ends_debounce (h : HomeAssistant) (device : TuyaBLEDevice)
    (before after : list Signal) (alive : Signal) :
  timers h = [] → live alive →
  let w := run (before ++ [Disconnected; alive]) (init h device) in
  pending (run after w) = []
  ∧ fire_count (emitted w (run after w)) = 0
  ∧ connected (run after w) = true.
Proof.
  intros Hnil Hlive w.
  set (w0 := run before (init h device)).
  assert (Hw : w = exec (deliver alive) (exec _async_handle_disconnect w0))
    by (unfold w, w0; now rewrite run_app).
  assert (Hinv : timer_inv w0) by (apply timer_inv_run, timer_inv_init, Hnil).
  destruct (disconnect_holds_unsub w0) as [k Hk].
  destruct (live_clears_pending alive _ Hlive (timer_inv_disconnect _ Hinv))
    as (Hp & Hu & Hd).
  rewrite <- Hw in Hp, Hu, Hd. rewrite Hk in Hu.
  destruct (held_forever after w k Hp Hu) as (Hp' & _ & Hf & Hstay).
  unfold connected. rewrite (Hstay Hd). repeat split; assumption.
Qed.

(** X8.  From a reachable state in which the coordinator holds no
    unsubscribe, a disconnect signal followed by the delay in silence
    marks the device disconnected: the delayed callback runs once,
    notifies the observers once, and clears the stored unsubscribe, so
    that a later disconnect signal starts a new countdown. *)
Theorem debounce_fires_when_idle (h : HomeAssistant) (device : TuyaBLEDevice)
    (sigs : list Signal) (dt n : nat) :
  timers h = [] →
  let w := run sigs (init h device) in
  _unsub_disconnect (self w) = None →
  SET_DISCONNECTED_DELAY ≤ dt →
  let w1 := exec _async_handle_disconnect w in
  let w2 := exec (elapse dt) w1 in
  connected w2 = false
  ∧ _unsub_disconnect (self w2) = None
  ∧ pending w2 = []
  ∧ emitted w1 w2 = [Fired (next_handle (hass w)); UpdateListeners]
  ∧ observer_notifications n (emitted w1 w2) = 1
  ∧ length (pending (exec _async_handle_disconnect w2)) = 1.
Proof.
  intros Hnil w Hunsub Hle w1 w2.
  assert (Hinv : timer_inv w) by (apply timer_inv_run, timer_inv_init, Hnil).
  destruct (debounce_fires w dt n Hinv Hunsub Hle)
    as (Hd & Hu & Hp & Hem & Hn & Hc).
  fold w1 in Hd, Hu, Hp, Hem, Hn, Hc. fold w2 in Hd, Hu, Hp, Hem, Hn, Hc.
  repeat split; try assumption.
  unfold pending in *. rewrite disconnect_idle by exact Hu. cbn.
  rewrite Hp. reflexivity.
Qed.

(** X9.  A data update that arrives before the pending countdown runs
    out cancels it, as a connect signal does: the connected flag does not
    change on the way, the coordinator is connected afterwards, nothing
    is pending, and the delayed callback has not run. *)
Theorem data_update_cancels_countdown (h : HomeAssistant)
    (device : TuyaBLEDevice) (before : list Signal) (dt : nat)
    (updates : list TuyaBLEDataPoint) :
  timers h = [] →
  let w := run before (init h device) in
  let w1 := exec _async_handle_disconnect w in
  let w2 := exec (elapse dt) w1 in
  let w3 := exec (_async_handle_update updates) w2 in
  before_due dt w1 →
  connected w1 = connected w
  ∧ connected w2 = connected w
  ∧ connected w3 = true
  ∧ pending w3 = []
  ∧ (∀ t, t ∈ pending w1 → Cancel (handle t) ∈ emitted w2 w3)
  ∧ fire_count (emitted w w3) = 0.
Proof.
  intros Hnil w w1 w2 w3 Hbefore.
  assert (Hinv : timer_inv w) by (apply timer_inv_run, timer_inv_init, Hnil).
  assert (Hinv1 : timer_inv w1) by now apply timer_inv_disconnect.
  assert (Hw2 : w2 = advanced dt w1) by now apply elapse_before_due.
  assert (Hinv2 : timer_inv w2) by now apply timer_inv_elapse.
  assert (Hself2 : self w2 = self w1) by now rewrite Hw2.
  assert (Hflag1 : _disconnected (self w1) = _disconnected (self w))
    by apply disconnect_flag.
  destruct (live_clears_pending (DataUpdate updates) w2 I Hinv2)
    as (Hp3 & _ & Hd3).
  cbn [deliver] in Hp3, Hd3. fold w3 in Hp3, Hd3.
  assert (Hem23 : emitted w2 w3
                  = connect_effects w2
                    ++ SetUpdatedData
                       :: button_presses (_device (self w2)) updates)
    by apply update_emitted.
  unfold connected. rewrite Hself2, Hflag1, Hd3.
  repeat split; try assumption.
  - intros t Hin. rewrite Hem23. unfold connect_effects.
    destruct Hinv1 as [Hnil1|(t1 & Hone & Hunsub)].
    + rewrite Hnil1 in Hin. now apply elem_of_nil in Hin.
    + rewrite Hone in Hin. apply list_elem_of_singleton in Hin. subst t1.
      rewrite Hself2, Hunsub. cbn. apply elem_of_cons. now left.
  - rewrite (emitted_trans w w1 w3).
    + rewrite fire_count_app.
      assert (E01 : fire_count (emitted w w1) = 0).
      { unfold w1.
        destruct (_unsub_disconnect (self w)) as [k0|] eqn:Hu.
        - rewrite (disconnect_held w k0) by exact Hu.
          rewrite (emitted_app w w []); [reflexivity | now rewrite app_nil_r].
        - rewrite disconnect_idle by exact Hu.
          erewrite emitted_app; [|cbn; reflexivity]. reflexivity. }
      assert (E13 : fire_count (emitted w1 w3) = 0).
      { rewrite (emitted_trans w1 w2 w3).
        - rewrite fire_count_app, Hem23, fire_count_app.
          change (SetUpdatedData :: ?l) with ([SetUpdatedData] ++ l).
          rewrite fire_count_app.
          pose proof (button_presses_counts 0 (_device (self w2)) updates)
            as (_ & -> & _).
          rewrite (emitted_app w1 w2 []);
            [|rewrite Hw2; cbn; now rewrite app_nil_r].
          unfold connect_effects.
          destruct (_unsub_disconnect (self w2)), (_disconnected (self w2));
            reflexivity.
        - apply (deliver_effects (Elapse dt)).
        - apply (deliver_effects (DataUpdate updates)). }
      lia.
    + apply (deliver_effects Disconnected).
    + destruct (deliver_effects (Elapse dt) w1) as [es1 H1].
      destruct (deliver_effects (DataUpdate updates) w2) as [es2 H2].
      exists (es1 ++ es2). cbn [deliver] in H1, H2. fold w2 in H1.
      fold w3 in H2. now rewrite H2, H1, app_assoc.
Qed.

End CoordinatorRuns.

Section CoordinatorSafety.
Context `{Consts}.

Implicit Types (w : World) (k : Handle) (t : Timer) (s : Signal).

Lemma button_presses_silent device (updates : list TuyaBLEDataPoint) :
  listener_updates (button_presses device updates) = 0
  ∧ set_data_calls (button_presses device updates) = 0.
Proof.
  pose proof (button_presses_counts 1 device updates) as (_ & _ & Hn).
  unfold observer_notifications in Hn. lia.
Qed.

Lemma connect_effects_counts w :
  listener_updates (connect_effects w)
  = (if _disconnected (self w) then 1 else 0)
  ∧ set_data_calls (connect_effects w) = 0
  ∧ fire_count (connect_effects w) = 0.
Proof.
  unfold connect_effects.
  destruct (_unsub_disconnect (self w)), (_disconnected (self w));
    repeat split.
Qed.

(** X10.  Every data update calls the host's [async_set_updated_data]
    exactly once, whatever the state; the coordinator's own listener
    broadcast is made only when the update finds it disconnected, and an
    update that finds it connected leaves its fields as they are. *)
Theorem update_always_sets_data (updates : list TuyaBLEDataPoint) w :
  let w' := exec (_async_handle_update updates) w in
  set_data_calls (emitted w w') = 1
  ∧ listener_updates (emitted w w')
    = (if _disconnected (self w) then 1 else 0)
  ∧ connected w' = true
  ∧ (connected w = true → self w' = self w).
Proof.
  intros w'. unfold w'. rewrite update_emitted.
  destruct (connect_effects_counts w) as (Hl & Hs & _).
  destruct (button_presses_silent (_device (self w)) updates) as (Hbl & Hbs).
  change (SetUpdatedData :: ?l) with ([SetUpdatedData] ++ l).
  rewrite !set_data_calls_app, !listener_updates_app, Hl, Hs, Hbl, Hbs.
  unfold connected. rewrite update_self, connect_self. cbn.
  repeat split; try lia.
  intros Hc. apply negb_true_iff in Hc. rewrite <- Hc.
  now destruct (self w).
Qed.

(** What one signal does to the connected flag, on a state with the
    timer invariant. *)
Lemma step_flag s w :
  timer_inv w →
  let w' := exec (deliver s) w in
  (connected w = true → connected w' = false →
   fire_count (emitted w w') = 1)
  ∧ (connected w' ≠ connected w → 1 ≤ listener_updates (emitted w w')).
Proof.
  intros Hinv. unfold connected.
  destruct s as [|updates| |dt]; cbn [deliver].
  - rewrite connect_emitted, connect_self. cbn. split; [discriminate|].
    destruct (connect_effects_counts w) as (-> & _).
    destruct (_disconnected (self w)); cbn; [lia | congruence].
  - rewrite update_emitted, update_self, connect_self. cbn.
    split; [discriminate|].
    rewrite listener_updates_app.
    destruct (connect_effects_counts w) as (-> & _).
    destruct (_disconnected (self w)); cbn; [lia | congruence].
  - rewrite disconnect_flag. split; [|congruence].
    intros ->. discriminate.
  - destruct Hinv as [Hnil|(t & Hone & Hunsub)].
    + rewrite elapse_idle by exact Hnil. cbn. split; [|congruence].
      intros ->. discriminate.
    + destruct (decide (due t ≤ now (hass w) + dt)) as [Hle|Hgt].
      * rewrite (elapse_fire w t) by assumption.
        erewrite emitted_app; [|cbn; reflexivity]. cbn.
        split; [reflexivity | lia].
      * rewrite (elapse_wait w t) by (assumption || lia). cbn.
        split; [|congruence]. intros ->. discriminate.
Qed.

(** X11.  A connected coordinator is never marked disconnected by a
    signal itself: in every run from a connected state that ends
    disconnected, the delayed callback has run. *)
Theorem disconnected_only_by_callback (h : HomeAssistant)
    (device : TuyaBLEDevice) (before after : list Signal) :
  timers h = [] →
  let w := run before (init h device) in
  connected w = true →
  connected (run after w) = false →
  1 ≤ fire_count (emitted w (run after w)).
Proof.
  intros Hnil w Hc.
  assert (Hinv : timer_inv w) by (apply timer_inv_run, timer_inv_init, Hnil).
  clearbody w. revert w Hc Hinv.
  induction after as [|s after IH]; intros w Hc Hinv Hend; cbn [run] in *.
  - congruence.
  - set (w' := exec (deliver s) w) in *.
    rewrite (emitted_trans w w');
      [|apply deliver_effects|apply run_effects].
    rewrite fire_count_app.
    destruct (connected w') eqn:Hc'.
    + pose proof (IH w' Hc' (timer_inv_deliver w s Hinv) Hend). lia.
    + destruct (step_flag s w Hinv) as [Hfire _].
      fold w' in Hfire. rewrite (Hfire Hc Hc'). lia.
Qed.

(** X12.  Whenever a signal changes what [connected] reports, the
    coordinator broadcasts to its listeners within that same step. *)
Theorem flag_change_is_broadcast (h : HomeAssistant)
    (device : TuyaBLEDevice) (before : list Signal) (s : Signal) :
  timers h = [] →
  let w := run before (init h device) in
  let w' := exec (deliver s) w in
  connected w' ≠ connected w →
  1 ≤ listener_updates (emitted w w').
Proof.
  intros Hnil w w' Hchange.
  assert (Hinv : timer_inv w) by (apply timer_inv_run, timer_inv_init, Hnil).
  now apply (step_flag s w Hinv).
Qed.

End CoordinatorSafety.

Section ButtonProducts.
Context `{Consts}.

Implicit Types (w : World).

Lemma update_button_events (updates : list TuyaBLEDataPoint) w :
  button_events (emitted w (exec (_async_handle_update updates) w))
  = button_presses (_device (self w)) updates.
Proof.
  rewrite update_emitted. unfold button_events.
  rewrite List.filter_app. cbn [List.filter is_bus_fire].
  pose proof (button_presses_counts 0 (_device (self w)) updates)
    as (Hb & _ & _).
  unfold button_events in Hb. rewrite Hb. unfold connect_effects.
  destruct (_unsub_disconnect (self w)), (_disconnected (self w));
    reflexivity.
Qed.

(** The products of the database with a manual-control data point. *)
Lemma manual_control_products device info fb :
  get_device_product_info device = Some info →
  fingerbot info = Some fb →
  manual_control fb ≠ 0%Z →
  category device = "szjqr"%string
  ∧ In (product_id device) fingerbot_plus_ids
  ∧ fb = fingerbot_plus_dps.
Proof.
  unfold get_device_product_info, get_product_info_by_ids, product_info_in.
  destruct (devices_database !! category device) as [ci|] eqn:Hcat;
    [|discriminate].
  pose proof (devices_database_info_none _ _ Hcat) as Hinfo.
  apply dict_of_lookup_elem in Hcat.
  destruct (products ci !! product_id device) as [p|] eqn:Hprod;
    [|rewrite Hinfo; discriminate].
  intros Hp Hfb Hmc. injection Hp as ->.
  unfold devices_database_items in Hcat.
  repeat (apply elem_of_cons in Hcat as [Heq|Hcat];
          [injection Heq as Hc ->; cbn [products category_of] in Hprod;
           apply dict_of_lookup_elem in Hprod;
           cbn [dict_fromkeys map app] in Hprod;
           repeat (apply elem_of_cons in Hprod as [Heq|Hprod];
                   [injection Heq as Hpid ->; cbn in Hfb;
                    try discriminate Hfb; injection Hfb as <-;
                    try (exfalso; apply Hmc; reflexivity);
                    rewrite Hc, Hpid; cbn; tauto|]);
           now apply elem_of_nil in Hprod|]).
  now apply elem_of_nil in Hcat.
Qed.

Lemma fingerbot_plus_lookup device :
  category device = "szjqr"%string →
  In (product_id device) fingerbot_plus_ids →
  get_device_product_info device
  = Some (product "Fingerbot Plus" (Some fingerbot_plus_dps)).
Proof.
  destruct device as [a d c p]. cbn. intros -> Hin.
  repeat (destruct Hin as [<-|Hin]; [vm_compute; reflexivity|]).
  contradiction.
Qed.

(** X13.  Only a Fingerbot Plus raises button events.  For a device of
    category [szjqr] with one of the four Fingerbot Plus product ids, a
    data update raises one event per record of data point 2 that the
    device itself changed; for every other device, known or unknown, a
    data update raises no button event. *)
Theorem button_events_only_from_fingerbot_plus
    (updates : list TuyaBLEDataPoint) w :
  let device := _device (self w) in
  let events :=
    button_events (emitted w (exec (_async_handle_update updates) w)) in
  let plus := category device = "szjqr"%string
              ∧ In (product_id device) fingerbot_plus_ids in
  (plus →
   events
   = map (fun _ => BusFire FINGERBOT_BUTTON_EVENT
                     (address device) (device_id device))
       (List.filter
          (fun update => (dp_id update =? 2)%Z && changed_by_device update)
          updates))
  ∧ (¬ plus → events = []).
Proof.
  intros device events plus.
  assert (Hev : events = button_presses device updates)
    by apply update_button_events.
  rewrite Hev. unfold button_presses. split.
  - intros [Hcat Hpid].
    rewrite (fingerbot_plus_lookup device Hcat Hpid). reflexivity.
  - intros Hnot.
    destruct (get_device_product_info device) as [info|] eqn:Hinfo;
      [|reflexivity].
    destruct (fingerbot info) as [fb|] eqn:Hfb; [|reflexivity].
    destruct (manual_control fb =? 0)%Z eqn:Hmc; [reflexivity|].
    apply Z.eqb_neq in Hmc. exfalso. apply Hnot.
    destruct (manual_control_products device info fb Hinfo Hfb Hmc)
      as (Hc & Hp & _).
    split; assumption.
Qed.

End ButtonProducts.

Lemma button_events_only_from_fingerbot_plus_witness :
  button_events
    (emitted fresh
       (exec (@_async_handle_update sample_consts
                [sample_update 2 true; sample_update 1 true]) fresh))
  = [BusFire "fingerbot_button_pressed" "DC:23:4D:AA:BB:CC" "bf01"]
  ∧ button_events
      (emitted (init empty_loop plain_fingerbot)
         (exec (@_async_handle_update sample_consts [sample_update 2 true])
            (init empty_loop plain_fingerbot)))
    = [].
Proof.
  split.
  - apply (@button_events_only_from_fingerbot_plus sample_consts
             [sample_update 2 true; sample_update 1 true] fresh).
    split; [reflexivity | cbn; tauto].
  - apply (@button_events_only_from_fingerbot_plus sample_consts
             [sample_update 2 true] (init empty_loop plain_fingerbot)).
    intros [_ Hin]. cbn in Hin.
    repeat (destruct Hin as [Heq|Hin]; [discriminate Heq|]). contradiction.
Defined.

(** ** Names shown to the user *)
Section Names.
Context `{Consts} `{HostNames}.


(** X15.  The readable name always carries the advertised name (or
    "Unknown BLE Device" when the advertisement has none or an empty
    one) and ends with the full and short MAC.  It is prefixed by the
    product name of the database when the manager returns credentials
    of a known product, by the credentials' device name when the
    product is unknown, and by nothing when there are no credentials
    or no manager; no warning is logged when the lookup returns. *)
Theorem readable_name_cases {St : Type}
    (discovery_info : BluetoothServiceInfoBleak)
    (m : Manager St) (s s' : St) :
  let addr := bt_address discovery_info in
  let shown := fallback_name_of discovery_info in
  let r := get_device_readable_name discovery_info (Some (m, s)) in
  (∀ c p,
      mgr_get_device_credentials m (PyStr addr) None None s
      = (Returned (Some c), s') →
      get_product_info_by_ids (cred_category c) (cred_product_id c)
      = Some p →
      rn_name r = (name p ++ " (" ++ shown ++ ")" ++ mac_suffix addr)%string
      ∧ warnings (rn_logs r) = [])
  ∧ (∀ c,
      mgr_get_device_credentials m (PyStr addr) None None s
      = (Returned (Some c), s') →
      get_product_info_by_ids (cred_category c) (cred_product_id c)
      = None →
      rn_name r
      = (py_str (cred_device_name c) ++ " (" ++ shown ++ ")"
         ++ mac_suffix addr)%string
      ∧ warnings (rn_logs r) = [])
  ∧ (mgr_get_device_credentials m (PyStr addr) None None s
     = (Returned None, s') →
     rn_name r = (shown ++ mac_suffix addr)%string
     ∧ warnings (rn_logs r) = [])
  ∧ rn_name (get_device_readable_name discovery_info
               (None : option (Manager St * St)))
    = (shown ++ mac_suffix addr)%string
  ∧ (bt_device_name discovery_info = None
     ∨ bt_device_name discovery_info = Some EmptyString →
     shown = "Unknown BLE Device"%string).
Proof.
  intros addr shown r. unfold r, get_device_readable_name.
  split; [|split; [|split; [|split]]].
  - intros c p Hget Hprod. fold addr. rewrite Hget, Hprod. split; reflexivity.
  - intros c Hget Hprod. fold addr. rewrite Hget, Hprod. split; reflexivity.
  - intros Hget. fold addr. rewrite Hget. split; reflexivity.
  - reflexivity.
  - unfold shown, fallback_name_of. intros [->| ->]; reflexivity.
Qed.

(** Every product of the database carries the default manufacturer. *)
Lemma database_manufacturer category product_id p :
  get_product_info_by_ids category product_id = Some p →
  manufacturer p = DEVICE_DEF_MANUFACTURER.
Proof.
  unfold get_product_info_by_ids, product_info_in.
  destruct (devices_database !! category) as [ci|] eqn:Hcat; [|discriminate].
  pose proof (devices_database_info_none _ _ Hcat) as Hinfo.
  apply dict_of_lookup_elem in Hcat.
  destruct (products ci !! product_id) as [q|] eqn:Hprod;
    [|rewrite Hinfo; discriminate].
  intros Hp. injection Hp as ->.
  unfold devices_database_items in Hcat.
  repeat (apply elem_of_cons in Hcat as [Heq|Hcat];
          [injection Heq as _ ->; cbn [products category_of] in Hprod;
           apply dict_of_lookup_elem in Hprod;
           cbn [dict_fromkeys map app] in Hprod;
           repeat (apply elem_of_cons in Hprod as [Heq|Hprod];
                   [injection Heq as _ ->; reflexivity|]);
           now apply elem_of_nil in Hprod|]).
  now apply elem_of_nil in Hcat.
Qed.

(** X16.  The device entry [get_device_info] builds always names the
    default manufacturer, whether the product is in the database or
    not; it is registered under the address as the device reports it,
    while the name ends with the normalised full and short MAC, the same
    tail as the readable name; and for a product of the database
    the name is the database's, whatever the device calls itself. *)
Theorem device_info_identity (device : DescribedDevice) :
  let entry := (get_device_info device).1 in
  let dev := dd_device device in
  di_manufacturer entry = DEVICE_DEF_MANUFACTURER
  ∧ di_identifiers entry = [(DOMAIN, address dev)]
  ∧ di_connections entry = [(CONNECTION_BLUETOOTH, address dev)]
  ∧ (∃ shown, di_name entry = (shown ++ mac_suffix (address dev))%string)
  ∧ (∀ p, get_device_product_info dev = Some p →
          di_name entry = (name p ++ mac_suffix (address dev))%string)
  ∧ (get_device_product_info dev = None →
     di_name entry
     = (py_str (dd_name device) ++ mac_suffix (address dev))%string).
Proof.
  intros entry dev. unfold entry, get_device_info. fold dev. cbn.
  split; [|split; [|split; [|split; [|split]]]].
  - destruct (get_device_product_info dev) as [p|] eqn:Hp; [|reflexivity].
    eapply database_manufacturer. exact Hp.
  - reflexivity.
  - reflexivity.
  - eexists. reflexivity.
  - intros p ->. reflexivity.
  - intros ->. reflexivity.
Qed.

(** *** Unique ids of entities *)

Lemma dash_split (d1 d2 k1 k2 : string) :
  ¬ In "-"%char (chars d1) → ¬ In "-"%char (chars d2) →
  (d1 ++ "-" ++ k1)%string = (d2 ++ "-" ++ k2)%string →
  d1 = d2 ∧ k1 = k2.
Proof.
  unfold chars. revert d2.
  induction d1 as [|c d1 IH]; intros [|c2 d2] Hn1 Hn2 Heq.
  - change (String "-" k1 = String "-" k2) in Heq.
    injection Heq as ->. split; reflexivity.
  - change (String "-" k1 = String c2 (d2 ++ "-" ++ k2)%string) in Heq.
    injection Heq as <- _. cbn in Hn2. tauto.
  - change (String c (d1 ++ "-" ++ k1)%string = String "-" k2) in Heq.
    injection Heq as -> _. cbn in Hn1. tauto.
  - change (String c (d1 ++ "-" ++ k1)%string
            = String c2 (d2 ++ "-" ++ k2)%string) in Heq.
    injection Heq as -> Heq. cbn in Hn1, Hn2.
    destruct (IH d2) as [-> ->]; [tauto|tauto|exact Heq|].
    split; reflexivity.
Qed.

(** X17.  Two entities get the same unique id only for the same device
    id and the same description key, provided device ids contain no
    dash; for one and the same device, different keys always give
    different unique ids. *)
Theorem entity_unique_id_injective
    (generate_entity_id : string → string → string)
    (device1 device2 : DescribedDevice)
    (description1 description2 : EntityDescription) :
  let e1 := entity_init generate_entity_id device1 description1 in
  let e2 := entity_init generate_entity_id device2 description2 in
  _attr_unique_id e1 = _attr_unique_id e2 →
  (¬ In "-"%char (chars (device_id (dd_device device1))) →
   ¬ In "-"%char (chars (device_id (dd_device device2))) →
   device_id (dd_device device1) = device_id (dd_device device2)
   ∧ key description1 = key description2)
  ∧ (device_id (dd_device device1) = device_id (dd_device device2) →
     key description1 = key description2).
Proof.
  intros e1 e2. unfold e1, e2, entity_init. cbn. intros Heq. split.
  - intros Hn1 Hn2. now apply dash_split.
  - intros Hdev. rewrite Hdev in Heq.
    apply (inj (String.append _)) in Heq.
    now apply (inj (String.append _)) in Heq.
Qed.

End Names.

(** ** The login step *)
Section LoginFacts.
Context `{FlowConsts} {St : Type}.

Implicit Types (m : Manager St) (s : St) (data user_input : PyDict).

Lemma py_eq_refl v : py_eq v v = true.
Proof.
  destruct v as [|b|z|x]; cbn.
  - reflexivity.
  - now destruct b.
  - apply Z.eqb_refl.
  - apply String.eqb_refl.
Qed.

(** A later round overwrites what an earlier round wrote. *)
Lemma with_app_type_absorb (a b : PyVal) data :
  with_app_type a (with_app_type b data) = with_app_type a data.
Proof.
  unfold with_app_type. apply map_eq. intros k.
  destruct (decide (CONF_AUTH_TYPE = k)) as [<-|Hauth].
  - now rewrite !lookup_insert_eq.
  - rewrite !(lookup_insert_ne _ CONF_AUTH_TYPE) by exact Hauth.
    destruct (decide (CONF_APP_TYPE = k)) as [<-|Happ].
    + now rewrite !lookup_insert_eq.
    + rewrite !(lookup_insert_ne _ CONF_APP_TYPE) by exact Happ.
      rewrite lookup_insert_ne by exact Hauth.
      now rewrite lookup_insert_ne by exact Happ.
Qed.

(** The loop, round by round: it makes the calls for a first part of
    the app types, each with the dict of that app type; it ends accepted
    on the last call made, refused after all of them, or raised. *)
Lemma login_loop_spec m (apps : list PyVal) data
    (response : option PyDict) s (calls : list PyDict) :
  ∃ n, n ≤ length apps
    ∧ (login_loop m apps data response s calls).2
      = (calls ++ map (fun a => with_app_type a data) (take n apps))%list
    ∧ match (login_loop m apps data response s calls).1.1 with
      | LoginAccepted d =>
          0 < n
          ∧ last (login_loop m apps data response s calls).2 = Some d
      | LoginRefused r =>
          n = length apps
          ∧ match apps with
            | [] => r = response
            | _ :: _ =>
                ∃ r' s0, r = Some r' ∧ refused r'
                  ∧ mgr_login m
                      (with_app_type (List.last apps PyNone) data) s0
                    = (Returned r',
                       (login_loop m apps data response s calls).1.2)
            end
      | LoginRaised _ => 0 < n
      end.
Proof.
  revert data response s calls.
  induction apps as [|a apps IH]; intros data response s calls.
  - exists 0. cbn. rewrite app_nil_r. repeat split. lia.
  - cbn [login_loop].
    destruct (mgr_login m (with_app_type a data) s) as [[r|e] s'] eqn:Hlogin.
    + destruct (truthy (dict_get_or r TUYA_RESPONSE_SUCCESS (PyBool false)))
        eqn:Hok.
      * exists 1. cbn. rewrite take_0. cbn. repeat split; try lia.
        apply last_snoc.
      * destruct (IH (with_app_type a data) (Some r) s'
                    (calls ++ [with_app_type a data])%list)
          as (n & Hn & Hcalls & Hend).
        exists (Datatypes.S n). cbn [length take map]. split; [lia|].
        split.
        { rewrite Hcalls, <- app_assoc. cbn. f_equal. f_equal.
          apply map_ext. intros b. apply with_app_type_absorb. }
        destruct (login_loop m apps (with_app_type a data) (Some r) s'
                    (calls ++ [with_app_type a data])%list)
          as [[[d|r0|e] s2] calls2] eqn:Hloop; cbn in *.
        -- destruct Hend as [Hpos Hlast]. split; [lia | exact Hlast].
        -- destruct Hend as [-> Hresp]. split; [reflexivity|].
           destruct apps as [|b apps'].
           ++ subst r0. exists r, s.
              cbn in Hloop. injection Hloop as <- _.
              repeat split; assumption.
           ++ destruct Hresp as (r' & s0 & -> & Href & Hcall).
              exists r', s0. repeat split; [exact Href|].
              rewrite with_app_type_absorb in Hcall. exact Hcall.
        -- lia.
    + exists 1. cbn. rewrite take_0. cbn. repeat split; lia.
Qed.

End LoginFacts.

Section LoginClaims.
Context `{FlowConsts} {St : Type}.

Implicit Types (m : Manager St) (s : St) (data user_input : PyDict).

Lemma first_country_found (countries : list Country) user_input country :
  first_country countries user_input = Returned (Some country) →
  In country countries
  ∧ ∃ chosen, user_input !! CONF_COUNTRY_CODE = Some chosen
              ∧ py_eq (country_name country) chosen = true.
Proof.
  induction countries as [|c cs IH]; cbn; [discriminate|].
  destruct (user_input !! CONF_COUNTRY_CODE) as [chosen|]; [|discriminate].
  destruct (py_eq (country_name c) chosen) eqn:Heq.
  - intros [= <-]. split; [now left | eauto].
  - intros Hfound. destruct (IH Hfound) as [Hin Hchosen].
    split; [now right | exact Hchosen].
Qed.

(** X18.  [_try_login] logs in to the cloud at most three times.  When
    it returns data, the data is the dict of the last login made, and
    the error and placeholder dicts are as they were; when it returns
    [None], [errors] has a base error, "invalid_country" before any
    login or "login_error" after exactly three; when it raises, the two
    dicts are as they were. *)
Theorem try_login_contract m s user_input
    (errors : gmap string string) (placeholders : PyDict) :
  let a := _try_login m s user_input errors placeholders in
  length (la_calls a) ≤ 3
  ∧ match la_result a with
    | Returned (Some data) =>
        last (la_calls a) = Some data
        ∧ la_errors a = errors
        ∧ la_placeholders a = placeholders
    | Returned None =>
        (la_errors a = <["base" := "invalid_country"%string]> errors
         ∧ la_calls a = [] ∧ la_placeholders a = placeholders)
        ∨ (la_errors a = <["base" := "login_error"%string]> errors
           ∧ length (la_calls a) = 3)
    | Raised _ =>
        la_errors a = errors ∧ la_placeholders a = placeholders
    end.
Proof.
  intros a. unfold a, _try_login.
  destruct (first_country TUYA_COUNTRIES user_input) as [[country|]|e].
  - set (data := login_data country user_input).
    destruct (login_loop_spec m app_types data None s [])
      as (n & Hn & Hcalls & Hend).
    destruct (login_loop m app_types data None s [])
      as [[[d|r|e] s'] calls]; cbn in *.
    + destruct Hend as [_ Hlast]. subst calls. rewrite length_map, length_take.
      cbn. repeat split; (lia || assumption).
    + destruct Hend as [-> _]. subst calls. cbn. split; [lia|].
      right. split; reflexivity.
    + subst calls. rewrite length_map, length_take. cbn.
      repeat split; lia.
  - cbn. split; [lia|]. left. repeat split.
  - cbn. split; [lia|]. split; reflexivity.
Qed.

(** X19.  Once the country is found, the logins are made in a fixed
    order, Tuya Smart, Smart Life, then Smart Life with the custom
    authentication type, each with the same credentials, and stop at the
    first one the cloud accepts: the calls are a first part of
    [login_calls], and the third dict names the Smart Life app and the
    custom type. *)
Theorem try_login_call_order m s user_input
    (errors : gmap string string) (placeholders : PyDict) (country : Country) :
  first_country TUYA_COUNTRIES user_input = Returned (Some country) →
  let a := _try_login m s user_input errors placeholders in
  let calls := login_calls (login_data country user_input) in
  (∃ n, 1 ≤ n ≤ 3 ∧ la_calls a = take n calls)
  ∧ (∀ data, la_result a = Returned (Some data) → In data calls)
  ∧ calls !! 2
    = Some (<[CONF_AUTH_TYPE := AUTH_TYPE_CUSTOM]>
              (<[CONF_APP_TYPE := SMARTLIFE_APP]>
                 (login_data country user_input))).
Proof.
  intros Hfound a calls. unfold a, _try_login. rewrite Hfound.
  set (data := login_data country user_input) in *.
  destruct (login_loop_spec m app_types data None s [])
    as (n & Hn & Hcalls & Hend).
  assert (Htake : ∀ k, take k calls
                       = map (fun a => with_app_type a data)
                           (take k app_types))
    by (intros k; unfold calls, login_calls; apply firstn_map).
  change (length app_types) with 3 in Hn.
  destruct (login_loop m app_types data None s [])
    as [[[d|r|e] s'] cs]; cbn [fst snd app] in Hcalls, Hend |- *; subst cs.
  - destruct Hend as [Hpos Hlast]. repeat split.
    + exists n. rewrite Htake. repeat split; lia.
    + intros d' [= <-]. rewrite <- Htake in Hlast.
      apply last_Some_elem_of in Hlast.
      apply list_elem_of_In. eapply subseteq_take, Hlast.
  - destruct Hend as [Hlen _]. change (length app_types) with 3 in Hlen.
    subst n. repeat split.
    + exists 3. rewrite Htake. repeat split; lia.
    + intros d' [=].
  - repeat split.
    + exists n. rewrite Htake. repeat split; lia.
    + intros d' [=].
Qed.


(** X21.  What happens when the country cannot be determined.  When
    [user_input] has no country entry, looking it up raises [KeyError]
    (unless the country table is empty); when it names a country that is
    not in the table, the result is [None] with the base error
    "invalid_country".  In both cases the cloud is not contacted and the
    manager's state is untouched. *)
Theorem try_login_without_country m s user_input
    (errors : gmap string string) (placeholders : PyDict) :
  let a := _try_login m s user_input errors placeholders in
  (user_input !! CONF_COUNTRY_CODE = None →
   TUYA_COUNTRIES ≠ [] →
   la_result a = Raised (KeyError CONF_COUNTRY_CODE)
   ∧ la_errors a = errors)
  ∧ (∀ chosen,
       user_input !! CONF_COUNTRY_CODE = Some chosen →
       (∀ c, In c TUYA_COUNTRIES → py_eq (country_name c) chosen = false) →
       la_result a = Returned None
       ∧ la_errors a !! "base"%string = Some "invalid_country"%string)
  ∧ (user_input !! CONF_COUNTRY_CODE = None
     ∨ (∃ chosen, user_input !! CONF_COUNTRY_CODE = Some chosen
          ∧ ∀ c, In c TUYA_COUNTRIES → py_eq (country_name c) chosen = false)
     → la_calls a = [] ∧ la_state a = s
       ∧ la_placeholders a = placeholders).
Proof.
  intros a. unfold a, _try_login.
  assert (Hmiss : ∀ chosen cs,
             user_input !! CONF_COUNTRY_CODE = Some chosen →
             (∀ c, In c cs → py_eq (country_name c) chosen = false) →
             first_country cs user_input = Returned None).
  { intros chosen cs Hsome. induction cs as [|c cs IH]; intros Hnone;
      cbn; [reflexivity|].
    rewrite Hsome, (Hnone c) by now left.
    apply IH. intros c' Hc'. apply Hnone. now right. }
  assert (Hkey : user_input !! CONF_COUNTRY_CODE = None →
                 first_country TUYA_COUNTRIES user_input
                 = match TUYA_COUNTRIES with
                   | [] => Returned None
                   | _ => Raised (KeyError CONF_COUNTRY_CODE)
                   end).
  { intros Hnone. destruct TUYA_COUNTRIES; cbn; [reflexivity|].
    now rewrite Hnone. }
  split; [|split].
  - intros Hnone Hne. rewrite (Hkey Hnone).
    destruct TUYA_COUNTRIES; [congruence|]. split; reflexivity.
  - intros chosen Hsome Hnone. rewrite (Hmiss chosen _ Hsome Hnone). cbn.
    split; [reflexivity | apply lookup_insert_eq].
  - intros [Hnone|(chosen & Hsome & Hnone)].
    + rewrite (Hkey Hnone). destruct TUYA_COUNTRIES; repeat split.
    + rewrite (Hmiss chosen _ Hsome Hnone). repeat split.
Qed.

End LoginClaims.

Section LoginForm.
Context `{FlowConsts} {St : Type}.

Implicit Types (m : Manager St) (s : St) (data user_input : PyDict).

Lemma try_login_data_shape m s user_input
    (errors : gmap string string) (placeholders : PyDict)
    (country : Country) data :
  first_country TUYA_COUNTRIES user_input = Returned (Some country) →
  la_result (_try_login m s user_input errors placeholders)
  = Returned (Some data) →
  ∃ app_type, data = with_app_type app_type (login_data country user_input).
Proof.
  intros Hfound. unfold _try_login. rewrite Hfound.
  destruct (login_loop_spec m app_types (login_data country user_input)
              None s []) as (n & _ & Hcalls & Hend).
  destruct (login_loop m app_types (login_data country user_input) None s [])
    as [[[d|r|e] s'] cs]; cbn [fst snd app la_result] in *;
    try discriminate.
  intros [= <-]. destruct Hend as [_ Hlast]. subst cs.
  apply last_Some_elem_of, list_elem_of_In, in_map_iff in Hlast.
  destruct Hlast as (a & <- & _). eauto.
Qed.

Lemma login_data_country_code (country : Country) user_input :
  login_data country user_input !! CONF_COUNTRY_CODE
  = Some (country_code country).
Proof. unfold login_data, dict_of. cbn. apply lookup_insert_eq. Qed.

Lemma country_name_for_found (countries : list Country) (country : Country) :
  In country countries →
  ∃ c, In c countries
       ∧ py_eq (country_code c) (country_code country) = true
       ∧ country_name_for countries (country_code country)
         = Some (country_name c).
Proof.
  induction countries as [|c cs IH]; cbn; [tauto|].
  destruct (py_eq (country_code c) (country_code country)) eqn:Heq.
  - intros _. exists c. repeat split; [now left | exact Heq].
  - intros [->|Hin]; [now rewrite py_eq_refl in Heq|].
    destruct (IH Hin) as (c' & Hc' & Hcode & Hname).
    exists c'. repeat split; [now right | exact Hcode | exact Hname].
Qed.

(** X22.  The country survives the round trip through the stored data.
    [_try_login] stores the country code of the country chosen by name;
    when the stored data is shown again, [_show_login_form] turns the
    code back into the name of the country that was chosen, and offers
    it as the default of the country field.  This needs country codes
    that determine the name, a code that is not empty, and a country
    key different from the two keys the login loop writes. *)
Theorem country_round_trip m s user_input
    (errors errors' : gmap string string) (placeholders placeholders' : PyDict)
    (def_country : Outcome (option PyVal)) (country : Country) data :
  first_country TUYA_COUNTRIES user_input = Returned (Some country) →
  la_result (_try_login m s user_input errors placeholders)
  = Returned (Some data) →
  codes_name_countries →
  truthy (country_code country) = true →
  CONF_COUNTRY_CODE ≠ CONF_APP_TYPE →
  CONF_COUNTRY_CODE ≠ CONF_AUTH_TYPE →
  let shown := _show_login_form def_country data errors' placeholders' in
  data !! CONF_COUNTRY_CODE = Some (country_code country)
  ∧ shown.1.2 !! CONF_COUNTRY_CODE = Some (country_name country)
  ∧ form_default shown.1.1 CONF_COUNTRY_CODE = Some (country_name country)
  ∧ py_eq (country_name country) (dict_get user_input CONF_COUNTRY_CODE)
    = true.
Proof.
  intros Hfound Hres Hcodes Htruthy Happ Hauth shown.
  destruct (try_login_data_shape _ _ _ _ _ _ _ Hfound Hres) as [a ->].
  destruct (first_country_found _ _ _ Hfound) as (Hin & chosen & Hui & Hname).
  set (d := with_app_type a (login_data country user_input)) in *.
  assert (Hcode : d !! CONF_COUNTRY_CODE = Some (country_code country)).
  { unfold d, with_app_type.
    rewrite !lookup_insert_ne by congruence.
    apply login_data_country_code. }
  assert (Hne : d ≠ ∅).
  { intros Hempty. rewrite Hempty, lookup_empty in Hcode. discriminate. }
  destruct (country_name_for_found TUYA_COUNTRIES country Hin)
    as (c & Hc & Hceq & Hfor).
  assert (Hcname : country_name c = country_name country)
    by now apply Hcodes.
  assert (Hshow : show_country_name d
                  = <[CONF_COUNTRY_CODE := country_name country]> d).
  { unfold show_country_name, dict_get. rewrite Hcode.
    rewrite bool_decide_eq_true_2 by exact Hne.
    change (default PyNone (Some (country_code country)))
      with (country_code country).
    rewrite Htruthy. cbn [andb].
    now rewrite Hfor, Hcname. }
  split; [exact Hcode|].
  unfold shown, _show_login_form, form_default. rewrite Hshow.
  destruct def_country as [[n|]|e]; cbn;
    rewrite String.eqb_refl; cbn; unfold dict_get_or, dict_get;
    rewrite ?lookup_insert_eq, ?Hui; cbn; repeat split; assumption.
Qed.


End LoginForm.

(** ** The statements above on concrete inputs *)
Section MoreScenarios.
Local Existing Instance sample_consts.
Local Existing Instance sample_host_names.
Local Existing Instance sample_flow_consts.

Lemma reachable_countdown_witness :
  let w := run [Connected; Disconnected; Elapse 10] fresh in
  length (pending w) ≤ 1
  ∧ ∀ t, t ∈ pending w →
      _unsub_disconnect (self w) = Some (handle t)
      ∧ now (hass w) ≤ due t ≤ now (hass w) + SET_DISCONNECTED_DELAY
      ∧ handle t < next_handle (hass w).
Proof.
  apply (reachable_countdown empty_loop sample_device
           [Connected; Disconnected; Elapse 10]).
  reflexivity.
Defined.

Lemma reconnect_ends_debounce_witness :
  let w := run ([Connected] ++ [Disconnected; DataUpdate []]) fresh in
  let after := [Disconnected; Elapse 5000] in
  pending (run after w) = []
  ∧ fire_count (emitted w (run after w)) = 0
  ∧ connected (run after w) = true.
Proof.
  apply (reconnect_ends_debounce empty_loop sample_device [Connected]
           [Disconnected; Elapse 5000] (DataUpdate [])).
  - reflexivity.
  - exact I.
Defined.

Lemma debounce_fires_when_idle_witness :
  let w := run [Connected] fresh in
  let w1 := exec _async_handle_disconnect w in
  let w2 := exec (elapse 600) w1 in
  connected w2 = false
  ∧ _unsub_disconnect (self w2) = None
  ∧ pending w2 = []
  ∧ emitted w1 w2 = [Fired (next_handle (hass w)); UpdateListeners]
  ∧ observer_notifications 1 (emitted w1 w2) = 1
  ∧ length (pending (exec _async_handle_disconnect w2)) = 1.
Proof.
  apply (debounce_fires_when_idle empty_loop sample_device [Connected] 600 1).
  - reflexivity.
  - reflexivity.
  - vm_compute. lia.
Defined.

Lemma data_update_cancels_countdown_witness :
  let w := run [Connected] fresh in
  let w1 := exec _async_handle_disconnect w in
  let w2 := exec (elapse 599) w1 in
  let w3 := exec (_async_handle_update [sample_update 2 true]) w2 in
  connected w1 = connected w
  ∧ connected w2 = connected w
  ∧ connected w3 = true
  ∧ pending w3 = []
  ∧ (∀ t, t ∈ pending w1 → Cancel (handle t) ∈ emitted w2 w3)
  ∧ fire_count (emitted w w3) = 0.
Proof.
  apply (data_update_cancels_countdown empty_loop sample_device [Connected]
           599 [sample_update 2 true]).
  - reflexivity.
  - intros t Hin. vm_compute in Hin.
    apply list_elem_of_singleton in Hin. subst t. vm_compute. lia.
Defined.

Lemma update_always_sets_data_witness :
  let w := run [Connected] fresh in
  self (exec (_async_handle_update [sample_update 2 true]) w) = self w.
Proof.
  apply (update_always_sets_data [sample_update 2 true]
           (run [Connected] fresh)).
  reflexivity.
Defined.

Lemma disconnected_only_by_callback_witness :
  let w := run [Connected] fresh in
  1 ≤ fire_count (emitted w (run [Disconnected; Elapse 600] w)).
Proof.
  apply (disconnected_only_by_callback empty_loop sample_device [Connected]
           [Disconnected; Elapse 600]).
  - reflexivity.
  - reflexivity.
  - reflexivity.
Defined.

Lemma flag_change_is_broadcast_witness :
  1 ≤ listener_updates (emitted fresh (exec (deliver Connected) fresh)).
Proof.
  apply (flag_change_is_broadcast empty_loop sample_device [] Connected).
  - reflexivity.
  - vm_compute. discriminate.
Defined.


Lemma readable_name_cases_witness :
  rn_name (get_device_readable_name sample_discovery
             (Some (constant_manager (Returned (Some sample_credentials)),
                    tt)))
  = "Fingerbot Plus (TY) [Full MAC: DC:23:4D:AA:BB:CC, Short: AA:BB:CC]"%string
  ∧ rn_name (get_device_readable_name sample_discovery
               (Some (constant_manager (Returned None), tt)))
    = "TY [Full MAC: DC:23:4D:AA:BB:CC, Short: AA:BB:CC]"%string.
Proof.
  split.
  - destruct (readable_name_cases sample_discovery
                (constant_manager (Returned (Some sample_credentials)))
                tt tt) as (Hknown & _).
    apply (Hknown sample_credentials
             (product "Fingerbot Plus" (Some fingerbot_plus_dps))).
    + reflexivity.
    + vm_compute. reflexivity.
  - destruct (readable_name_cases sample_discovery
                (constant_manager (Returned None)) tt tt)
      as (_ & _ & Hnone & _).
    apply Hnone. reflexivity.
Defined.

Lemma device_info_identity_witness :
  di_name (get_device_info sample_described).1
  = "Fingerbot Plus [Full MAC: DC:23:4D:AA:BB:CC, Short: AA:BB:CC]"%string.
Proof.
  destruct (device_info_identity sample_described)
    as (_ & _ & _ & _ & Hknown & _).
  apply (Hknown (product "Fingerbot Plus" (Some fingerbot_plus_dps))).
  vm_compute. reflexivity.
Defined.

Lemma entity_unique_id_injective_witness :
  device_id (dd_device sample_described)
  = device_id (dd_device sample_described)
  ∧ key {| key := "battery"; translation_key := None |}
    = key {| key := "battery"; translation_key := None |}.
Proof.
  apply (entity_unique_id_injective (fun _ n => n)
           sample_described sample_described
           {| key := "battery"; translation_key := None |}
           {| key := "battery"; translation_key := None |}).
  - reflexivity.
  - vm_compute. intros [Heq|[Heq|[Heq|[Heq|[]]]]]; discriminate Heq.
  - vm_compute. intros [Heq|[Heq|[Heq|[Heq|[]]]]]; discriminate Heq.
Defined.

Lemma try_login_call_order_witness :
  let a := _try_login (picky_cloud (PyStr "smartlife")) 0
             sample_user_input ∅ ∅ in
  let calls := login_calls (login_data canada sample_user_input) in
  (∃ n, 1 ≤ n ≤ 3 ∧ la_calls a = take n calls)
  ∧ (∀ data, la_result a = Returned (Some data) → In data calls)
  ∧ calls !! 2
    = Some (<[CONF_AUTH_TYPE := AUTH_TYPE_CUSTOM]>
              (<[CONF_APP_TYPE := SMARTLIFE_APP]>
                 (login_data canada sample_user_input))).
Proof.
  apply (try_login_call_order (picky_cloud (PyStr "smartlife")) 0
           sample_user_input ∅ ∅ canada).
  vm_compute. reflexivity.
Defined.



Lemma try_login_without_country_witness :
  la_result (_try_login refusing_cloud 0 ∅ ∅ ∅)
  = Raised (KeyError "country_code")
  ∧ la_result (_try_login refusing_cloud 0
                 {["country_code" := PyStr "Atlantis"]} ∅ ∅)
    = Returned None.
Proof.
  split.
  - destruct (try_login_without_country refusing_cloud 0 ∅ ∅ ∅)
      as (Hmissing & _).
    apply Hmissing; [reflexivity | discriminate].
  - destruct (try_login_without_country refusing_cloud 0
                {["country_code" := PyStr "Atlantis"]} ∅ ∅)
      as (_ & Hunknown & _).
    apply (Hunknown (PyStr "Atlantis")); [reflexivity|].
    intros c Hin. vm_compute in Hin.
    repeat (destruct Hin as [<-|Hin]; [reflexivity|]). contradiction.
Defined.

Lemma sample_codes_name_countries : codes_name_countries.
Proof.
  intros c1 c2 H1 H2. vm_compute in H1, H2.
  repeat (destruct H1 as [<-|H1]; [|]);
    try contradiction;
    repeat (destruct H2 as [<-|H2]; [|]);
    try contradiction; vm_compute; congruence.
Qed.

Lemma country_round_trip_witness :
  let a := _try_login (picky_cloud (PyStr "smartlife")) 0
             sample_user_input ∅ ∅ in
  let data := with_app_type (PyStr "smartlife")
                (login_data canada sample_user_input) in
  let shown := _show_login_form (Returned None) data ∅ ∅ in
  la_result a = Returned (Some data)
  ∧ data !! CONF_COUNTRY_CODE = Some (PyStr "1")
  ∧ shown.1.2 !! CONF_COUNTRY_CODE = Some (PyStr "Canada")
  ∧ form_default shown.1.1 CONF_COUNTRY_CODE = Some (PyStr "Canada")
  ∧ py_eq (PyStr "Canada") (dict_get sample_user_input CONF_COUNTRY_CODE)
    = true.
Proof.
  intros a data shown.
  assert (Hres : la_result a = Returned (Some data))
    by (vm_compute; reflexivity).
  split; [exact Hres|].
  apply (country_round_trip (picky_cloud (PyStr "smartlife")) 0
           sample_user_input ∅ ∅ ∅ ∅ (Returned None) canada data).
  - vm_compute. reflexivity.
  - exact Hres.
  - exact sample_codes_name_countries.
  - reflexivity.
  - discriminate.
  - discriminate.
Defined.


End MoreScenarios.
